(** * Lead-generation scraper: crawling, signal extraction and scoring

    A shallow embedding of [HardwareStoreLeadScraper]
    (src/Scrapper_PreprocessingTool.py) and the properties of its page
    selection, fetching, text cleaning, pattern extraction, scoring and batch
    driver.

    Conventions of the embedding.
    - A Python [str] is a [string]; a character is a code point in 0..255
      (Latin-1), and the character predicates below are Python's on that
      range.
    - A Python [dict] with string keys is a [gmap string _]; the profile
      stored under ['hardware_intelligence'] has a fixed set of keys and is a
      record.
    - Python [int]s are [Z].
    - The network is an oracle: the outcome of a request is a function of the
      requests made so far and of the URL requested; requests are logged.
    - Exceptions are values of [Exn]; a function that may raise returns
      [Exn + A].  [print] and [time.sleep] have no effect on results and are
      left out. *)

From Stdlib Require Import ZArith Lia Ascii String List Bool.
From stdpp Require Import base option gmap strings list sorting.

Import ListNotations.

(** ** Characters *)

Module Char.

Definition code (c : ascii) : nat := nat_of_ascii c.

Definition between (lo hi : nat) (c : ascii) : bool :=
  (lo <=? code c)%nat && (code c <=? hi)%nat.

(** [str.isspace] and the regular-expression class [\s]. *)
Definition isspace (c : ascii) : bool :=
  between 9 13 c || between 28 32 c || (code c =? 133)%nat || (code c =? 160)%nat.

(** The regular-expression class [\d]. *)
Definition isdigit (c : ascii) : bool := between 48 57 c.

(** The regular-expression class [\w]. *)
Definition isword (c : ascii) : bool :=
  between 48 57 c || between 65 90 c || (code c =? 95)%nat || between 97 122 c
  || (code c =? 170)%nat || between 178 179 c || (code c =? 181)%nat
  || between 185 186 c || between 188 190 c || between 192 214 c
  || between 216 246 c || between 248 255 c.

(** [str.lower] on one character. *)
Definition lower (c : ascii) : ascii :=
  if between 65 90 c || between 192 214 c || between 216 222 c
  then ascii_of_nat (code c + 32) else c.

(** The upper-case partner inside Latin-1, where there is one. *)
Definition upper (c : ascii) : ascii :=
  if between 97 122 c || between 224 246 c || between 248 254 c
  then ascii_of_nat (code c - 32) else c.

End Char.

(** ** Strings *)

Module Str.

Definition nl : string := String "010"%char "".

Fixpoint lower (s : string) : string :=
  match s with
  | "" => ""
  | String c s' => String (Char.lower c) (lower s')
  end.

Definition is_empty (s : string) : bool :=
  match s with "" => true | _ => false end.

(** [len(s)] *)
Definition len (s : string) : Z := Z.of_nat (String.length s).

Fixpoint mem (c : ascii) (cs : string) : bool :=
  match cs with
  | "" => false
  | String d cs' => Ascii.eqb c d || mem c cs'
  end.

(** Removal of the leading characters that satisfy [p]. *)
Fixpoint ldrop (p : ascii -> bool) (s : string) : string :=
  match s with
  | "" => ""
  | String c s' => if p c then ldrop p s' else s
  end.

(** Removal of the trailing characters that satisfy [p]. *)
Fixpoint rdrop (p : ascii -> bool) (s : string) : string :=
  match s with
  | "" => ""
  | String c s' =>
      let r := rdrop p s' in
      if is_empty r && p c then "" else String c r
  end.

(** [s.strip()] *)
Definition strip (s : string) : string :=
  rdrop Char.isspace (ldrop Char.isspace s).

(** [s.rstrip(chars)] *)
Definition rstrip (chars : string) (s : string) : string :=
  rdrop (fun c => mem c chars) s.

(** [s.startswith(p)] *)
Fixpoint startswith (p s : string) : bool :=
  match p, s with
  | "", _ => true
  | String a p', String b s' => Ascii.eqb a b && startswith p' s'
  | _, "" => false
  end.

(** [sub in s] *)
Fixpoint contains (sub s : string) : bool :=
  startswith sub s ||
  match s with
  | "" => false
  | String _ s' => contains sub s'
  end.

Fixpoint drop (n : nat) (s : string) : string :=
  match n, s with
  | O, _ => s
  | S n', String _ s' => drop n' s'
  | S _, "" => ""
  end.

Fixpoint take (n : nat) (s : string) : string :=
  match n, s with
  | O, _ => ""
  | S n', String c s' => String c (take n' s')
  | S _, "" => ""
  end.

(** [s.replace(old, new)] for a non-empty [old]: the occurrences are
    replaced from left to right, without overlap. *)
Fixpoint replace_from (fuel : nat) (old new s : string) : string :=
  match fuel with
  | O => s
  | S fuel' =>
      match s with
      | "" => ""
      | String c s' =>
          if startswith old s
          then new +:+ replace_from fuel' old new (drop (String.length old) s)
          else String c (replace_from fuel' old new s')
      end
  end.

Definition replace (old new s : string) : string :=
  if is_empty old then s else replace_from (String.length s) old new s.

(** [s.split()]: the maximal runs of non-whitespace characters. *)
Fixpoint split (s : string) : list string :=
  match s with
  | "" => []
  | String c s' =>
      if Char.isspace c then split s'
      else
        match s' with
        | "" => [String c ""]
        | String c' _ =>
            if Char.isspace c' then String c "" :: split s'
            else
              match split s' with
              | w :: ws => String c w :: ws
              | [] => [String c ""]
              end
        end
  end.

(** [sep.join(ws)] *)
Fixpoint join (sep : string) (ws : list string) : string :=
  match ws with
  | [] => ""
  | [w] => w
  | w :: ws' => w +:+ sep +:+ join sep ws'
  end.

End Str.


(** ** Regular expressions

    The fragment of Python's [re] syntax that the scraper's patterns use:
    literals, escapes, [.], character sets, groups (capturing and
    [(?:...)]), alternation and the greedy quantifiers [?], [*], [+],
    [{m}], [{m,}] and [{m,n}].  Matching is by backtracking, as in [re]:
    alternatives are tried from left to right and quantifiers are greedy. *)

Module Re.

Inductive citem : Type :=
| CLit (c : ascii)
| CRange (lo hi : ascii)
| CWord
| CDigit
| CSpace.

Inductive regex : Type :=
| Eps
| Lit (c : ascii)
| Any
| Cls (neg : bool) (items : list citem)
| Seq (r1 r2 : regex)
| Alt (r1 r2 : regex)
| Rep (lo : nat) (hi : option nat) (r : regex)
| Group (r : regex).

(** *** Compilation of a pattern string *)

Definition seq (r1 r2 : regex) : regex :=
  match r2 with Eps => r1 | _ => Seq r1 r2 end.

Definition is_punct (c : ascii) : bool :=
  Char.between 33 47 c || Char.between 58 64 c
  || Char.between 91 96 c || Char.between 123 126 c.

(** A backslash escape: [\w], [\d], [\s] or an escaped punctuation
    character. *)
Definition escape (c : ascii) : option citem :=
  if Ascii.eqb c "w" then Some CWord
  else if Ascii.eqb c "d" then Some CDigit
  else if Ascii.eqb c "s" then Some CSpace
  else if is_punct c || Ascii.eqb c " " then Some (CLit c)
  else None.

Definition atom_of (i : citem) : regex :=
  match i with
  | CLit c => Lit c
  | _ => Cls false [i]
  end.

(** The inside of [[...]], after the optional [^], up to the closing
    bracket. *)
Fixpoint parse_set (fuel : nat) (s : string) : option (list citem * string) :=
  match fuel with
  | O => None
  | S fuel' =>
      match s with
      | "" => None
      | String "]" s' => Some ([], s')
      | String c s' =>
          match (if Ascii.eqb c "\" then
                   match s' with
                   | String e s'' => i ← escape e; Some (i, s'')
                   | "" => None
                   end
                 else Some (CLit c, s')) with
          | None => None
          | Some (i, s1) =>
              match i, s1 with
              | CLit lo, String "-" (String hi s2) =>
                  if Ascii.eqb hi "]" then
                    '(its, s3) ← parse_set fuel' s1; Some (i :: its, s3)
                  else if Ascii.eqb hi "\" then None
                  else if (Char.code hi <? Char.code lo)%nat then None
                  else '(its, s3) ← parse_set fuel' s2; Some (CRange lo hi :: its, s3)
              | _, _ => '(its, s3) ← parse_set fuel' s1; Some (i :: its, s3)
              end
          end
      end
  end.

Fixpoint parse_nat (acc : option nat) (s : string) : option nat * string :=
  match s with
  | String c s' =>
      if Char.isdigit c
      then parse_nat (Some (10 * default 0 acc + (Char.code c - 48))%nat) s'
      else (acc, s)
  | "" => (acc, s)
  end.

(** The quantifier that may follow an atom.  A second quantifier sign
    after it (lazy and possessive forms, or a repeated repeat) is outside
    the fragment. *)
Definition parse_quant (a : regex) (s : string) : option (regex * string) :=
  let no_more (r : regex) (s' : string) :=
    match s' with
    | String "?" _ | String "*" _ | String "+" _ => None
    | _ => Some (r, s')
    end in
  match s with
  | String "?" s' => no_more (Rep 0 (Some 1) a) s'
  | String "*" s' => no_more (Rep 0 None a) s'
  | String "+" s' => no_more (Rep 1 None a) s'
  | String "{" s' =>
      match parse_nat None s' with
      | (Some m, String "}" s1) => no_more (Rep m (Some m) a) s1
      | (Some m, String "," s1) =>
          match parse_nat None s1 with
          | (Some n, String "}" s2) =>
              if (n <? m)%nat then None else no_more (Rep m (Some n) a) s2
          | (None, String "}" s2) => no_more (Rep m None a) s2
          | _ => None
          end
      | _ => None
      end
  | _ => Some (a, s)
  end.

Fixpoint parse_alt (fuel : nat) (s : string) : option (regex * string) :=
  match fuel with
  | O => None
  | S fuel' =>
      '(r1, s1) ← parse_seq fuel' s;
      match s1 with
      | String "|" s2 => '(r2, s3) ← parse_alt fuel' s2; Some (Alt r1 r2, s3)
      | _ => Some (r1, s1)
      end
  end
with parse_seq (fuel : nat) (s : string) : option (regex * string) :=
  match fuel with
  | O => None
  | S fuel' =>
      match s with
      | "" | String "|" _ | String ")" _ => Some (Eps, s)
      | _ =>
          '(a, s1) ← parse_atom fuel' s;
          '(q, s2) ← parse_quant a s1;
          '(r, s3) ← parse_seq fuel' s2;
          Some (seq q r, s3)
      end
  end
with parse_atom (fuel : nat) (s : string) : option (regex * string) :=
  match fuel with
  | O => None
  | S fuel' =>
      match s with
      | "" => None
      | String "(" (String "?" (String ":" s')) =>
          '(r, s1) ← parse_alt fuel' s';
          match s1 with String ")" s2 => Some (r, s2) | _ => None end
      | String "(" (String "?" _) => None
      | String "(" s' =>
          '(r, s1) ← parse_alt fuel' s';
          match s1 with String ")" s2 => Some (Group r, s2) | _ => None end
      | String "[" (String "^" s') =>
          '(its, s1) ← parse_set fuel' s'; Some (Cls true its, s1)
      | String "[" s' =>
          '(its, s1) ← parse_set fuel' s'; Some (Cls false its, s1)
      | String "\" (String e s') => i ← escape e; Some (atom_of i, s')
      | String "." s' => Some (Any, s')
      | String c s' =>
          if Str.mem c "\^$*+?{})|" then None else Some (Lit c, s')
      end
  end.

(** [re.compile(pattern)]; [None] stands for [re.error] (and for syntax
    outside the fragment). *)
Definition compile (pattern : string) : option regex :=
  match parse_alt (3 * String.length pattern + 3) pattern with
  | Some (r, "") => Some r
  | _ => None
  end.

Fixpoint groups (r : regex) : nat :=
  match r with
  | Seq r1 r2 | Alt r1 r2 => groups r1 + groups r2
  | Rep _ _ r1 => groups r1
  | Group r1 => S (groups r1)
  | _ => 0
  end.

(** *** Matching *)

Definition item_has (i : citem) (c : ascii) : bool :=
  match i with
  | CLit d => Ascii.eqb c d
  | CRange lo hi => Char.between (Char.code lo) (Char.code hi) c
  | CWord => Char.isword c
  | CDigit => Char.isdigit c
  | CSpace => Char.isspace c
  end.

(** Membership of a character in a set; with [re.IGNORECASE] ([ic]) the
    case variants of the character count as well. *)
Definition set_has (ic : bool) (items : list citem) (c : ascii) : bool :=
  existsb (fun i => item_has i c
                    || (ic && (item_has i (Char.lower c)
                               || item_has i (Char.upper c)))) items.

Definition lit_eq (ic : bool) (c d : ascii) : bool :=
  if ic then Ascii.eqb (Char.lower c) (Char.lower d) else Ascii.eqb c d.

(** One character of the text against a one-character expression. *)
Definition step (ic : bool) (r : regex) (c : ascii) : bool :=
  match r with
  | Lit d => lit_eq ic d c
  | Any => negb (Ascii.eqb c "010")
  | Cls neg items => xorb neg (set_has ic items c)
  | _ => false
  end.

Definition or_else {A} (x y : option A) : option A :=
  match x with Some _ => x | None => y end.

(** The part of [s] in front of its suffix [rest]. *)
Definition taken (s rest : string) : string :=
  Str.take (String.length s - String.length rest) s.

Section Exec.
Context {A : Type}.
Variable ic : bool.

(** [exec r s g k]: match [r] at the front of [s] and hand what is left
    of [s], and the text of the capturing group ([g] before the match),
    to the continuation [k]; where [k] fails, the next way of matching
    [r] is tried. *)
Fixpoint exec (r : regex) (s : string) (g : option string)
    (k : string -> option string -> option A) : option A :=
  match r with
  | Eps => k s g
  | Lit _ | Any | Cls _ _ =>
      match s with
      | String c s' => if step ic r c then k s' g else None
      | "" => None
      end
  | Seq r1 r2 => exec r1 s g (fun s1 g1 => exec r2 s1 g1 k)
  | Alt r1 r2 => or_else (exec r1 s g k) (exec r2 s g k)
  | Rep lo hi r1 =>
      (fix rep (n lo : nat) (s : string) (g : option string) : option A :=
         let stop := match lo with O => k s g | S _ => None end in
         match n with
         | O => stop
         | S n' =>
             or_else (exec r1 s g (fun s1 g1 => rep n' (Nat.pred lo) s1 g1))
                     stop
         end)
        (match hi with Some h => h | None => S (String.length s) end)
        lo s g
  | Group r1 => exec r1 s g (fun s1 _ => k s1 (Some (taken s s1)))
  end.
End Exec.

(** A match at the front of [s]: the text matched, the text of the
    group, and the rest of [s]. *)
Definition match_at (ic : bool) (r : regex) (s : string)
    : option (string * option string * string) :=
  exec ic r s None (fun rest g => Some (taken s rest, g, rest)).

(** What [re.findall] reports for a match: the text of the group when the
    expression has one, the whole match otherwise. *)
Definition reported (r : regex) (m : string) (g : option string) : string :=
  match groups r with
  | O => m
  | S _ => default "" g
  end.

(** The matches of [r] in [s] from left to right, without overlap.  After
    an empty match the scan moves on by one character. *)
Fixpoint scan (fuel : nat) (ic : bool) (r : regex) (s : string)
    : list (string * option string) :=
  match fuel with
  | O => []
  | S fuel' =>
      match match_at ic r s with
      | Some (m, g, rest) =>
          (m, g) ::
          (if Str.is_empty m
           then match s with
                | "" => []
                | String _ s' => scan fuel' ic r s'
                end
           else scan fuel' ic r rest)
      | None =>
          match s with
          | "" => []
          | String _ s' => scan fuel' ic r s'
          end
      end
  end.

Definition findall_re (ic : bool) (r : regex) (s : string) : list string :=
  map (fun mg => reported r mg.1 mg.2) (scan (S (String.length s)) ic r s).

(** [re.findall(pattern, s, flags)] for a pattern with at most one
    group. *)
Definition findall (pattern : string) (s : string) (ic : bool)
    : option (list string) :=
  r ← compile pattern; Some (findall_re ic r s).

(** [re.sub(r, repl, s)] for a replacement text without group
    references. *)
Fixpoint sub_from (fuel : nat) (ic : bool) (r : regex) (repl s : string)
    : string :=
  match fuel with
  | O => s
  | S fuel' =>
      match match_at ic r s with
      | Some (m, _, rest) =>
          if Str.is_empty m
          then match s with
               | "" => repl
               | String c s' => repl +:+ String c (sub_from fuel' ic r repl s')
               end
          else repl +:+ sub_from fuel' ic r repl rest
      | None =>
          match s with
          | "" => ""
          | String c s' => String c (sub_from fuel' ic r repl s')
          end
      end
  end.

Definition sub_re (ic : bool) (r : regex) (repl s : string) : string :=
  sub_from (S (String.length s)) ic r repl s.

End Re.

(** ** Exceptions *)

Inductive Exn : Type :=
| KeyError (key : string)
| ValueError (msg : string)
| SSLError (msg : string)            (* requests.exceptions.SSLError *)
| Timeout (msg : string)             (* requests.exceptions.Timeout *)
| ConnectionError (msg : string)     (* requests.exceptions.ConnectionError *)
| HTTPError (msg : string)           (* requests.exceptions.HTTPError *)
| RequestException (msg : string)    (* any other requests exception *)
| TimeoutError                       (* concurrent.futures.TimeoutError *)
| OtherError (msg : string).         (* any other Exception *)

(** [isinstance(e, requests.exceptions.RequestException)]: in [requests],
    [SSLError] derives from [ConnectionError], and [ConnectionError],
    [Timeout] and [HTTPError] derive from [RequestException]. *)
Definition is_RequestException (e : Exn) : bool :=
  match e with
  | SSLError _ | Timeout _ | ConnectionError _ | HTTPError _
  | RequestException _ => true
  | _ => false
  end.

(** [str(e)] *)
Definition str_of_exn (e : Exn) : string :=
  match e with
  | KeyError key => "'" +:+ key +:+ "'"
  | ValueError msg | SSLError msg | Timeout msg | ConnectionError msg
  | HTTPError msg | RequestException msg | OtherError msg => msg
  | TimeoutError => ""
  end.

(** ** Company records and intelligence profiles *)

(** The dictionary stored under ['hardware_intelligence'].  The two context
    entries are absent ([None]) until [_extract_additional_context] adds
    them. *)
Record Intelligence : Type := {
  infrastructure_needs : list string;
  growth_indicators : list string;
  technical_pain_points : list string;
  decision_makers : list string;
  tech_stack : list string;
  hardware_opportunities : list string;
  urgency_signals : list string;
  company_scale : list string;
  budget_indicators : list string;
  scraping_success : bool;
  scraping_error : option string;
  content_preview : string;
  hardware_readiness_score : Z;
  business_context : option (list string);
  industry_context : option (list string)
}.

Inductive value : Type :=
| VStr (s : string)
| VInt (n : Z)
| VNone
| VIntel (i : Intelligence).

Abbreviation Company := (gmap string value).

(** The profile that [scrape_company_website] starts from, and that the
    batch driver stores, with the error text, for a task that raised. *)
Definition blank_intelligence (error : option string) : Intelligence := {|
  infrastructure_needs := [];
  growth_indicators := [];
  technical_pain_points := [];
  decision_makers := [];
  tech_stack := [];
  hardware_opportunities := [];
  urgency_signals := [];
  company_scale := [];
  budget_indicators := [];
  scraping_success := false;
  scraping_error := error;
  content_preview := "";
  hardware_readiness_score := 0;
  business_context := None;
  industry_context := None
|}.

(** [company['hardware_intelligence']] *)
Definition get_intelligence (company : Company) : Exn + Intelligence :=
  match company !! "hardware_intelligence" with
  | Some (VIntel i) => inr i
  | Some _ => inl (OtherError "'hardware_intelligence' is not a dict")
  | None => inl (KeyError "hardware_intelligence")
  end.

(** ** Signal extraction *)

Definition infrastructure_patterns : list string := [
  "(?:server|hosting|infrastructure|cloud|on-premise|data center|hardware) (?:needs?|requirements?|challenges?|issues?|problems?|upgrades?|migration)";
  "(?:looking for|need|require|seeking) (?:new )?(?:servers?|workstations?|networking|storage|backup)";
  "(?:performance|speed|capacity|storage|memory|processing) (?:issues?|problems?|bottlenecks?|limitations?)";
  "(?:scaling|expanding|growing) (?:infrastructure|systems?|operations?|team)";
  "(?:outdated|legacy|old|aging) (?:systems?|hardware|equipment|infrastructure)"
].

Definition growth_patterns : list string := [
  "(?:hiring|recruiting|adding|expanding) (?:\w+ )?(?:team|developers?|engineers?|staff)";
  "(?:new office|additional location|expanding to|opening in)";
  "(?:raised|funding|investment|series [abc]|venture capital)";
  "(?:growing|scaling|expanding) (?:rapidly|quickly|fast|business|operations)";
  "(?:remote work|hybrid|distributed team|work from home) (?:setup|infrastructure|needs)";
  "(?:\d+)% (?:growth|increase) in (?:team|revenue|business)"
].

Definition pain_point_patterns : list string := [
  "(?:slow|sluggish|performance|speed) (?:systems?|applications?|processes?|workflows?)";
  "(?:security|compliance|data protection|backup|disaster recovery) (?:concerns?|issues?|requirements?|needs?)";
  "(?:downtime|outages?|system failures?|crashes?|reliability issues?)";
  "(?:integration|compatibility|connectivity) (?:problems?|challenges?|issues?)";
  "(?:budget|cost|expensive|affordable) (?:constraints?|concerns?|solutions?|hardware)";
  "(?:manual processes?|inefficient|time-consuming|repetitive tasks?)"
].

Definition decision_maker_patterns : list string := [
  "(?:cto|chief technology officer|it director|it manager|head of it|technical lead)";
  "(?:operations? manager|head of operations?|ops lead)";
  "(?:procurement|purchasing|buying|vendor management)";
  "(?:budget approval|purchasing decisions?|it spending|technology investments?)"
].

Definition tech_infrastructure_patterns : list string := [
  "(?:aws|amazon web services|azure|google cloud|gcp|digital ocean|linode)";
  "(?:cloud|hosting|saas|paas|iaas|hybrid cloud|multi-cloud)";
  "(?:docker|kubernetes|containers?|microservices)";
  "(?:ci/cd|continuous integration|devops|automation)";
  "(?:mysql|postgresql|mongodb|redis|elasticsearch|database)";
  "(?:storage|backup|disaster recovery|data management)";
  "(?:python|javascript|react|node\.?js|angular|vue|java|\.net)";
  "(?:web development|mobile development|software development)";
  "(?:nginx|apache|load balancer|cdn|ssl|security)";
  "(?:monitoring|logging|analytics|performance tracking)"
].

Definition hardware_needs_patterns : list string := [
  "(?:workstations?|desktops?|laptops?|computers?) (?:for|needed|required)";
  "(?:high-performance|gaming|graphics?) (?:computers?|workstations?|rigs?)";
  "(?:development|programming|coding|design) (?:machines?|workstations?|setups?)";
  "(?:video editing|3d rendering|cad|design) (?:computers?|workstations?)";
  "(?:networking|switches?|routers?|access points?) (?:equipment|hardware|setup)";
  "(?:storage|nas|san|backup) (?:solutions?|systems?|hardware)"
].

Definition urgency_patterns : list string := [
  "(?:urgent|asap|immediately|quickly|soon) (?:need|require|looking)";
  "(?:deadline|timeline|by (?:end of|q[1-4]|january|february|march|april|may|june|july|august|september|october|november|december))";
  "(?:budget allocated|approved budget|ready to purchase|ready to buy)";
  "(?:rfp|request for proposal|quotes?|proposals?|vendors?)";
  "(?:project starting|implementation|rollout|deployment) (?:soon|scheduled|planned)"
].

Definition company_scale_patterns : list string := [
  "(?:\d+(?:\+|plus)) (?:employees?|team members?|staff)";
  "(?:startup|scale-up|growing company|established company)";
  "(?:series [abc]|funding|investment|revenue of \$?\d+)";
  "(?:multiple offices?|locations?|branches?|sites?)";
  "(?:international|global|worldwide|multiple countries?)"
].

(** [match.strip().rstrip('.,!?:;')] *)
Definition clean_match (m : string) : string :=
  Str.rstrip ".,!?:;" (Str.strip m).

(** The loop over the matches of one pattern in
    [_extract_pattern_matches].  Its [break] leaves this loop only. *)
Fixpoint add_matches (found : list string) (matches : list string)
    : list string :=
  match found with
  | [] => matches
  | m :: rest =>
      let c := clean_match m in
      if bool_decide (5 < Str.len c)%Z && bool_decide (c ∉ matches) then
        let matches' := matches ++ [c] in
        if bool_decide (5 <= length matches')%nat then matches'
        else add_matches rest matches'
      else add_matches rest matches
  end.

(** The loop over the patterns; a pattern that does not compile is
    skipped ([except re.error: continue]).  The patterns of the tables
    above have no more than one group, so that [re.findall] yields strings
    and the joining of tuples in the source does not come into play. *)
Fixpoint pattern_loop (content : string) (patterns : list string)
    (matches : list string) : list string :=
  match patterns with
  | [] => matches
  | pattern :: rest =>
      match Re.findall pattern content true with
      | Some found => pattern_loop content rest (add_matches found matches)
      | None => pattern_loop content rest matches
      end
  end.

Definition _extract_pattern_matches (content : string)
    (patterns : list string) (category : string) : list string :=
  take 5 (pattern_loop content patterns []).

(** The compiled form of a list of pattern literals. *)
Definition compile_all (patterns : list string) : list Re.regex :=
  omap Re.compile patterns.

Definition budget_patterns : list string := [
  "budget of \$?(\d+(?:,\d+)*(?:\.\d+)?)\s*(?:million|thousand|k|m)?";
  "revenue of \$?(\d+(?:,\d+)*(?:\.\d+)?)\s*(?:million|thousand|k|m)?";
  "funding of \$?(\d+(?:,\d+)*(?:\.\d+)?)\s*(?:million|thousand|k|m)?";
  "raised \$?(\d+(?:,\d+)*(?:\.\d+)?)\s*(?:million|thousand|k|m)?";
  "(?:investment|capital|funding|raised|budget|revenue)\s+(?:of\s+)?\$?(\d+(?:,\d+)*(?:\.\d+)?)\s*(?:million|thousand|k|m)?"
].

Definition budget_regexes : list Re.regex :=
  Eval vm_compute in compile_all budget_patterns.

(** The loop over the matches of one budget pattern; each match is the
    text of the pattern's group, the amount.  Its [break] leaves this loop
    only. *)
Fixpoint add_indicators (found : list string) (indicators : list string)
    : list string :=
  match found with
  | [] => indicators
  | m :: rest =>
      let indicators' := indicators ++ ["Financial indicator: $" +:+ m] in
      if bool_decide (3 <= length indicators')%nat then indicators'
      else add_indicators rest indicators'
  end.

Fixpoint budget_loop (content : string) (regexes : list Re.regex)
    (indicators : list string) : list string :=
  match regexes with
  | [] => indicators
  | r :: rest =>
      budget_loop content rest
        (add_indicators (Re.findall_re true r content) indicators)
  end.

Definition _extract_budget_indicators (content : string) : list string :=
  budget_loop content budget_regexes [].

Definition phrase_patterns : list string := [
  "we (?:help|enable|empower|support) (?:companies|businesses|organizations|clients) (?:to )?([^.]{10,80})";
  "our mission is (?:to )?([^.]{10,80})";
  "we specialize in ([^.]{10,80})";
  "(?:focused on|committed to|dedicated to) ([^.]{10,80})"
].

Definition phrase_regexes : list Re.regex :=
  Eval vm_compute in compile_all phrase_patterns.

Fixpoint add_phrases (found : list string) (business_phrases : list string)
    : list string :=
  match found with
  | [] => business_phrases
  | m :: rest =>
      let clean_phrase := clean_match m in
      let business_phrases' :=
        if bool_decide (10 < Str.len clean_phrase)%Z
        then business_phrases ++ [clean_phrase] else business_phrases in
      if bool_decide (2 <= length business_phrases')%nat then business_phrases'
      else add_phrases rest business_phrases'
  end.

Fixpoint phrase_loop (content : string) (regexes : list Re.regex)
    (business_phrases : list string) : list string :=
  match regexes with
  | [] => business_phrases
  | r :: rest =>
      phrase_loop content rest
        (add_phrases (Re.findall_re true r content) business_phrases)
  end.

Definition industry_keywords : list (string * list string) := [
  ("fintech", ["financial"; "banking"; "payments"; "fintech"; "trading"]);
  ("healthcare", ["healthcare"; "medical"; "hospital"; "patient"; "clinical"]);
  ("ecommerce", ["ecommerce"; "retail"; "shopping"; "marketplace"; "online store"]);
  ("saas", ["saas"; "software as a service"; "subscription"; "cloud platform"]);
  ("startup", ["startup"; "early-stage"; "seed"; "series a"; "founders"])
].

Definition detect_industries (content : string) : list string :=
  omap (fun '(industry, keywords) =>
          if existsb (fun keyword => Str.contains keyword content) keywords
          then Some industry else None)
       industry_keywords.

(** [_extract_additional_context], on the profile. *)
Definition add_context (intelligence : Intelligence) (content : string)
    : Intelligence := {|
  infrastructure_needs := infrastructure_needs intelligence;
  growth_indicators := growth_indicators intelligence;
  technical_pain_points := technical_pain_points intelligence;
  decision_makers := decision_makers intelligence;
  tech_stack := tech_stack intelligence;
  hardware_opportunities := hardware_opportunities intelligence;
  urgency_signals := urgency_signals intelligence;
  company_scale := company_scale intelligence;
  budget_indicators := budget_indicators intelligence;
  scraping_success := scraping_success intelligence;
  scraping_error := scraping_error intelligence;
  content_preview := content_preview intelligence;
  hardware_readiness_score := hardware_readiness_score intelligence;
  business_context := Some (phrase_loop content phrase_regexes []);
  industry_context := Some (detect_industries content)
|}.

Definition _extract_additional_context (company : Company) (content : string)
    : Exn + Company :=
  match get_intelligence company with
  | inl e => inl e
  | inr intelligence =>
      inr (<["hardware_intelligence" := VIntel (add_context intelligence content)]>
             company)
  end.

(** The nine assignments of [_extract_hardware_intelligence], on the
    profile. *)
Definition add_signals (intelligence : Intelligence) (content_lower : string)
    : Intelligence := {|
  infrastructure_needs :=
    _extract_pattern_matches content_lower infrastructure_patterns "Infrastructure Needs";
  growth_indicators :=
    _extract_pattern_matches content_lower growth_patterns "Growth Indicators";
  technical_pain_points :=
    _extract_pattern_matches content_lower pain_point_patterns "Technical Pain Points";
  decision_makers :=
    _extract_pattern_matches content_lower decision_maker_patterns "Decision Makers";
  tech_stack :=
    _extract_pattern_matches content_lower tech_infrastructure_patterns "Technology Stack";
  hardware_opportunities :=
    _extract_pattern_matches content_lower hardware_needs_patterns "Hardware Opportunities";
  urgency_signals :=
    _extract_pattern_matches content_lower urgency_patterns "Urgency Signals";
  company_scale :=
    _extract_pattern_matches content_lower company_scale_patterns "Company Scale";
  budget_indicators := _extract_budget_indicators content_lower;
  scraping_success := scraping_success intelligence;
  scraping_error := scraping_error intelligence;
  content_preview := content_preview intelligence;
  hardware_readiness_score := hardware_readiness_score intelligence;
  business_context := business_context intelligence;
  industry_context := industry_context intelligence
|}.

(** [_extract_hardware_intelligence] changes the dictionary of the company
    in place; here it returns the company so changed. *)
Definition _extract_hardware_intelligence (company : Company) (content : string)
    : Exn + Company :=
  let content_lower := Str.lower content in
  match get_intelligence company with
  | inl e => inl e
  | inr intelligence =>
      _extract_additional_context
        (<["hardware_intelligence" := VIntel (add_signals intelligence content_lower)]>
           company)
        content_lower
  end.

(** ** Scoring *)

Local Open Scope Z_scope.

(** [len(l)] *)
Definition len {A} (l : list A) : Z := Z.of_nat (length l).

(** The body of [_calculate_hardware_readiness_score], on the profile.  An
    empty list is false in a condition. *)
Definition readiness_score (intelligence : Intelligence) : Z :=
  let score := 0 in
  let score :=
    if bool_decide (infrastructure_needs intelligence ≠ [])
    then score + Z.min 30 (len (infrastructure_needs intelligence) * 10)
    else score in
  let score :=
    if bool_decide (growth_indicators intelligence ≠ [])
    then score + Z.min 25 (len (growth_indicators intelligence) * 8)
    else score in
  let score :=
    if bool_decide (technical_pain_points intelligence ≠ [])
    then score + Z.min 20 (len (technical_pain_points intelligence) * 7)
    else score in
  let score :=
    if bool_decide (urgency_signals intelligence ≠ [])
    then score + Z.min 15 (len (urgency_signals intelligence) * 15)
    else score in
  let score :=
    if bool_decide (budget_indicators intelligence ≠ [])
    then score + Z.min 10 (len (budget_indicators intelligence) * 10)
    else score in
  Z.min 100 score.

Definition _calculate_hardware_readiness_score (company : Company) : Exn + Z :=
  match get_intelligence company with
  | inl e => inl e
  | inr intelligence => inr (readiness_score intelligence)
  end.

Local Close Scope Z_scope.

(** ** Text cleaning *)

Definition the_regex (pattern : string) : Re.regex :=
  default Re.Eps (Re.compile pattern).

(** [\s+] *)
Definition whitespace_run : Re.regex :=
  Eval vm_compute in the_regex "\s+".

(** [(?:cookie|privacy policy|terms of service|subscribe|newsletter)] *)
Definition web_artifacts : Re.regex :=
  Eval vm_compute in
    the_regex "(?:cookie|privacy policy|terms of service|subscribe|newsletter)".

(** [[^\w\s\.\,\!\?\:\;\-\(\)\$\%\+\#]] *)
Definition special_character : Re.regex :=
  Eval vm_compute in the_regex "[^\w\s\.\,\!\?\:\;\-\(\)\$\%\+\#]".

Definition important_short_words : list string :=
  ["we"; "us"; "or"; "to"; "is"; "it"; "ai"; "ml"; "io"; "ui"; "ux"; "qa"; "qa"; "bi"].

(** The loop that drops a word equal, up to case, to the word kept last. *)
Fixpoint drop_repeats (prev_word : string) (words : list string) : list string :=
  match words with
  | [] => []
  | word :: rest =>
      if bool_decide (Str.lower word ≠ Str.lower prev_word)
      then word :: drop_repeats word rest
      else drop_repeats prev_word rest
  end.

Definition _clean_text_enhanced (text : string) : string :=
  let text := Re.sub_re false whitespace_run " " text in
  let text := Re.sub_re true web_artifacts "" text in
  let text := Re.sub_re false special_character " " text in
  let words := Str.split text in
  let words :=
    filter (fun word => (2 < String.length word)%nat
                        ∨ Str.lower word ∈ important_short_words) words in
  let cleaned_words := drop_repeats "" words in
  Str.strip (Str.join " " cleaned_words).

(** ** Documents, responses and the network *)

(** A parsed document ([BeautifulSoup]) after the removal of the unwanted
    elements, by what the program observes of it. *)
Record Soup : Type := {
  select : string -> list string;     (* the text of each element of [soup.select(selector)] *)
  headings : list string;             (* the text of each [h1], [h2] and [h3] element *)
  body : option string;               (* the text of the [body] element *)
  get_text : string;                  (* [soup.get_text()] *)
  anchors : list (string * string)    (* [href] and text of each [a] element with an [href] *)
}.

Record Response : Type := {
  status_code : Z;
  content_type : option string;       (* the [content-type] header *)
  document : Exn + Soup               (* the outcome of parsing the content *)
}.

Inductive Reply : Type :=
| Responds (r : Response)
| Fails (e : Exn).

(** The outcome of a request, given the URLs requested so far. *)
Definition Net : Type := list string -> string -> Reply.

(** The result of [_scrape_single_page]. *)
Record PageData : Type := {
  success : bool;
  content : string;
  soup : option Soup;
  error : option string
}.

Definition failed_page (error : string) : PageData :=
  {| success := false; content := ""; soup := None; error := Some error |}.

Definition main_selectors : list string := [
  "main"; "[role=" +:+ String "034" ("main" +:+ String "034" "]");
  ".main-content"; "#main-content"; ".content"; "#content";
  "article"; ".post"; ".entry-content"; ".page-content"
].

Definition business_selectors : list string := [
  ".hero"; ".banner"; ".intro"; ".about"; ".services"; ".solutions";
  ".company"; ".team"; ".technology"; ".platform"; ".products"
].

Fixpoint first_selected (doc : Soup) (selectors : list string) : list string :=
  match selectors with
  | [] => []
  | selector :: rest =>
      match select doc selector with
      | [] => first_selected doc rest
      | elements => [Str.join " " elements]
      end
  end.

Definition _extract_main_content_enhanced (doc : Soup) : string :=
  let content_parts := first_selected doc main_selectors in
  let content_parts :=
    content_parts
    ++ concat (map (fun selector => take 2 (select doc selector)) business_selectors) in
  let content_parts := content_parts ++ take 10 (headings doc) in
  let content_parts :=
    match content_parts with
    | [] => [default (get_text doc) (body doc)]
    | _ => content_parts
    end in
  Str.join " " content_parts.

(** ** The scraper *)

(** How a loop body ends: normally, by [break], or by an exception,
    with the state of the loop at that point. *)
Inductive Ctl (S : Type) : Type :=
| Next (st : S)
| Break (st : S)
| Raise (st : S).

Arguments Next {S} st.
Arguments Break {S} st.
Arguments Raise {S} st.

Section Scraper.

(** The configuration of the instance. *)
Variable max_content_length : Z.

(** [urlparse(url).scheme]; [None] where [urlparse] raises. *)
Variable urlparse_scheme : string -> option string.

(** [urljoin(base, url)]; [None] where [urljoin] raises. *)
Variable urljoin : string -> string -> option string.

Variable net : Net.

(** A computation that makes requests: from the log of the URLs
    requested so far to a result and the new log. *)
Definition Req (A : Type) : Type := list string -> A * list string.

(** [session.get(url, ...)] followed by [response.raise_for_status()]. *)
Definition get (url : string) : Req (Exn + Response) := fun log =>
  (match net log url with
   | Fails e => inl e
   | Responds response =>
       if bool_decide (400 <= status_code response < 600)%Z
       then inl (HTTPError ("Error for url: " +:+ url))
       else inr response
   end, log ++ [url]).

(** The handlers of the outer [try] of [_scrape_single_page], in their
    order. *)
Definition page_error (e : Exn) : PageData :=
  match e with
  | SSLError msg => failed_page ("SSL Error: " +:+ msg)
  | Timeout _ => failed_page "Request timeout"
  | _ =>
      if is_RequestException e
      then failed_page ("Request failed: " +:+ str_of_exn e)
      else failed_page ("Parsing failed: " +:+ str_of_exn e)
  end.

(** The URL that is requested, given the scheme of the URL passed in. *)
Definition force_https (scheme url : string) : string :=
  if Str.is_empty scheme then "https://" +:+ url
  else if bool_decide (scheme = "http")
       then Str.replace "http://" "https://" url
       else url.

Definition _scrape_single_page (url : string) : Req PageData := fun log =>
  match urlparse_scheme url with
  | None => (page_error (ValueError "urlparse"), log)
  | Some scheme =>
      let url := force_https scheme url in
      let '(first, log) := get url log in
      let '(response, log) :=
        match first with
        | inl e => if is_RequestException e then get url log else (inl e, log)
        | inr response => (inr response, log)
        end in
      match response with
      | inl e => (page_error e, log)
      | inr response =>
          if negb (Str.contains "text/html"
                     (Str.lower (default "" (content_type response))))
          then (failed_page "Not HTML content", log)
          else
            match document response with
            | inl e => (page_error e, log)
            | inr doc =>
                let content := _extract_main_content_enhanced doc in
                let clean_content := _clean_text_enhanced content in
                ({| success := true; content := clean_content;
                    soup := Some doc; error := None |}, log)
            end
      end
  end.

Definition priority_pages : list (string * list string) := [
  ("about", ["about"; "company"; "team"; "story"]);
  ("services", ["services"; "solutions"; "products"; "offerings"]);
  ("technology", ["technology"; "tech-stack"; "infrastructure"; "platform"]);
  ("careers", ["careers"; "jobs"; "hiring"; "join-us"; "work-with-us"]);
  ("case-studies", ["case-studies"; "portfolio"; "work"; "projects"]);
  ("contact", ["contact"; "get-in-touch"; "reach-us"])
].

(** [found_pages] and [pages] *)
Definition Found : Type := gset string * list string.

(** [for keyword in keywords] *)
Fixpoint keyword_loop (base_url : string) (link : string * string)
    (keywords : list string) (st : Found) : Ctl Found :=
  match keywords with
  | [] => Next st
  | keyword :: rest =>
      let href := Str.lower link.1 in
      let link_text := Str.strip (Str.lower link.2) in
      if (Str.contains keyword href || Str.contains keyword link_text)
         && bool_decide (size st.1 < 4)%nat
      then
        match urljoin base_url link.1 with
        | None => Raise st
        | Some full_url =>
            if bool_decide (full_url ∉ st.1) && bool_decide (full_url ≠ base_url)
            then Break ({[full_url]} ∪ st.1, st.2 ++ [full_url])
            else keyword_loop base_url link rest st
        end
      else keyword_loop base_url link rest st
  end.

(** [for category, keywords in priority_pages.items()] *)
Fixpoint category_loop (base_url : string) (link : string * string)
    (categories : list (string * list string)) (st : Found) : Ctl Found :=
  match categories with
  | [] => Next st
  | (_, keywords) :: rest =>
      match keyword_loop base_url link keywords st with
      | Raise st' => Raise st'
      | Next st' | Break st' =>
          if bool_decide (4 <= size st'.1)%nat then Break st'
          else category_loop base_url link rest st'
      end
  end.

(** [for link in links]; an exception ends the search with the pages
    found so far. *)
Fixpoint link_loop (base_url : string) (links : list (string * string))
    (st : Found) : Found :=
  match links with
  | [] => st
  | link :: rest =>
      match category_loop base_url link priority_pages st with
      | Raise st' => st'
      | Next st' | Break st' =>
          if bool_decide (4 <= size st'.1)%nat then st'
          else link_loop base_url rest st'
      end
  end.

Definition _get_strategic_pages (base_url : string) : Req (list string) :=
  fun log =>
  let pages := [base_url] in
  let '(homepage_data, log) := _scrape_single_page base_url log in
  if negb (success homepage_data) then (pages, log)
  else
    match soup homepage_data with
    | None => (take 5 pages, log)
    | Some doc =>
        let '(_, pages) := link_loop base_url (anchors doc) (∅, pages) in
        (take 5 pages, log)
    end.

(** The loop over the pages in [scrape_company_website]. *)
Fixpoint scrape_pages (pages_to_scrape : list string) (all_content : string)
    : Req string := fun log =>
  match pages_to_scrape with
  | [] => (all_content, log)
  | page_url :: rest =>
      let '(page_data, log) := _scrape_single_page page_url log in
      if success page_data then
        let all_content :=
          all_content +:+ (Str.nl +:+ "--- " +:+ page_url +:+ " ---" +:+ Str.nl)
                      +:+ content page_data in
        if bool_decide (max_content_length < Str.len all_content)%Z
        then (all_content, log)
        else scrape_pages rest all_content log
      else scrape_pages rest all_content log
  end.

Definition with_error (intelligence : Intelligence) (msg : string)
    : Intelligence := {|
  infrastructure_needs := infrastructure_needs intelligence;
  growth_indicators := growth_indicators intelligence;
  technical_pain_points := technical_pain_points intelligence;
  decision_makers := decision_makers intelligence;
  tech_stack := tech_stack intelligence;
  hardware_opportunities := hardware_opportunities intelligence;
  urgency_signals := urgency_signals intelligence;
  company_scale := company_scale intelligence;
  budget_indicators := budget_indicators intelligence;
  scraping_success := scraping_success intelligence;
  scraping_error := Some msg;
  content_preview := content_preview intelligence;
  hardware_readiness_score := hardware_readiness_score intelligence;
  business_context := business_context intelligence;
  industry_context := industry_context intelligence
|}.

Definition with_content (intelligence : Intelligence) (all_content : string)
    : Intelligence := {|
  infrastructure_needs := infrastructure_needs intelligence;
  growth_indicators := growth_indicators intelligence;
  technical_pain_points := technical_pain_points intelligence;
  decision_makers := decision_makers intelligence;
  tech_stack := tech_stack intelligence;
  hardware_opportunities := hardware_opportunities intelligence;
  urgency_signals := urgency_signals intelligence;
  company_scale := company_scale intelligence;
  budget_indicators := budget_indicators intelligence;
  scraping_success := true;
  scraping_error := scraping_error intelligence;
  content_preview := Str.take 500 all_content;
  hardware_readiness_score := hardware_readiness_score intelligence;
  business_context := business_context intelligence;
  industry_context := industry_context intelligence
|}.

Definition with_score (intelligence : Intelligence) (score : Z)
    : Intelligence := {|
  infrastructure_needs := infrastructure_needs intelligence;
  growth_indicators := growth_indicators intelligence;
  technical_pain_points := technical_pain_points intelligence;
  decision_makers := decision_makers intelligence;
  tech_stack := tech_stack intelligence;
  hardware_opportunities := hardware_opportunities intelligence;
  urgency_signals := urgency_signals intelligence;
  company_scale := company_scale intelligence;
  budget_indicators := budget_indicators intelligence;
  scraping_success := scraping_success intelligence;
  scraping_error := scraping_error intelligence;
  content_preview := content_preview intelligence;
  hardware_readiness_score := score;
  business_context := business_context intelligence;
  industry_context := industry_context intelligence
|}.

(** [company['hardware_intelligence'][key] = ...] *)
Definition update_intelligence (f : Intelligence -> Intelligence)
    (company : Company) : Exn + Company :=
  match get_intelligence company with
  | inl e => inl e
  | inr intelligence =>
      inr (<["hardware_intelligence" := VIntel (f intelligence)]> company)
  end.

(** The [except Exception] handler of [scrape_company_website]: the error
    text is stored in the profile as it is when the exception arrives. *)
Definition record_error (enhanced_company : Company) (e : Exn) : Company :=
  match update_intelligence (fun i => with_error i (str_of_exn e)) enhanced_company with
  | inr enhanced_company' => enhanced_company'
  | inl _ => enhanced_company
  end.

(** The statements of the [try] block that follow the loop over the
    pages, for a non-empty [all_content]. *)
Definition analyse (enhanced_company : Company) (all_content : string)
    : Company :=
  match update_intelligence (fun i => with_content i all_content) enhanced_company with
  | inl e => record_error enhanced_company e
  | inr enhanced1 =>
      match _extract_hardware_intelligence enhanced1 all_content with
      | inl e => record_error enhanced1 e
      | inr enhanced2 =>
          match _calculate_hardware_readiness_score enhanced2 with
          | inl e => record_error enhanced2 e
          | inr score =>
              match update_intelligence (fun i => with_score i score) enhanced2 with
              | inl e => record_error enhanced2 e
              | inr enhanced3 => enhanced3
              end
          end
      end
  end.

(** [scrape_company_website].  The two look-ups of the first statement
    are outside the [try] block: a missing key raises [KeyError] to the
    caller.  A ['website'] that is not a string makes every fetch fail
    inside [_scrape_single_page] before any request is made. *)
Definition scrape_company_website (company : Company) : Req (Exn + Company) :=
  fun log =>
  match company !! "name", company !! "website" with
  | None, _ => (inl (KeyError "name"), log)
  | Some _, None => (inl (KeyError "website"), log)
  | Some _, Some website =>
      let enhanced_company :=
        <["hardware_intelligence" := VIntel (blank_intelligence None)]> company in
      let '(all_content, log) :=
        match website with
        | VStr url =>
            let '(pages_to_scrape, log) := _get_strategic_pages url log in
            scrape_pages pages_to_scrape "" log
        | _ => ("", log)
        end in
      if negb (Str.is_empty all_content)
      then (inr (analyse enhanced_company all_content), log)
      else
        (inr (<["hardware_intelligence" :=
                 VIntel (with_error (blank_intelligence None)
                           "No content extracted from any pages")]>
                enhanced_company), log)
  end.

End Scraper.

(** ** The batch driver *)

Section Batch.

Variable max_content_length : Z.
Variable urlparse_scheme : string -> option string.
Variable urljoin : string -> string -> option string.

(** What the pool of [max_workers] threads does with the tasks is not
    fixed by the program.  For the task submitted at position [i],
    [task_net] is the network as that task meets it, among the requests
    of the other tasks, and [overruns] tells whether the wait of 45
    seconds for its result times out. *)
Variable task_net : Z -> nat -> Net.
Variable overruns : Z -> nat -> bool.

(** [future.result(timeout=45)] for the task at position [i]. *)
Definition future_result (max_workers : Z) (i : nat) (company : Company)
    : Exn + Company :=
  if overruns max_workers i then inl TimeoutError
  else
    (scrape_company_website max_content_length urlparse_scheme urljoin
       (task_net max_workers i) company []).1.

(** [for future in future_to_company]: the futures are visited in the
    order of their submission, which is the order of [companies].  The
    handler reads [company['name']] and stores the failure profile in the
    input record. *)
Fixpoint collect (max_workers : Z) (i : nat) (companies : list Company)
    (enhanced_companies : list Company) : Exn + list Company :=
  match companies with
  | [] => inr enhanced_companies
  | company :: rest =>
      match future_result max_workers i company with
      | inr enhanced_company =>
          collect max_workers (S i) rest (enhanced_companies ++ [enhanced_company])
      | inl e =>
          match company !! "name" with
          | None => inl (KeyError "name")
          | Some _ =>
              let company :=
                <["hardware_intelligence" :=
                   VIntel (blank_intelligence (Some (str_of_exn e)))]> company in
              collect max_workers (S i) rest (enhanced_companies ++ [company])
          end
      end
  end.

(** [scrape_multiple_companies]; [ThreadPoolExecutor] refuses a pool
    without workers. *)
Definition scrape_multiple_companies (companies : list Company)
    (max_workers : Z) : Exn + list Company :=
  if bool_decide (max_workers <= 0)%Z
  then inl (ValueError "max_workers must be greater than 0")
  else collect max_workers 0 companies [].

End Batch.

(** ** Notions used in the statements *)

(** The state that a loop body leaves. *)
Definition ctl_state {S} (c : Ctl S) : S :=
  match c with Next st | Break st | Raise st => st end.

(** What the search for strategic pages maintains: the base URL stays in
    front, and every page after it was entered in [found_pages], which holds
    at most four. *)
Definition pages_kept (base_url : string) (st : Found) : Prop :=
  (∃ others, st.2 = base_url :: others)
  ∧ length st.2 = S (size st.1)
  ∧ (size st.1 <= 4)%nat.

(** Sample surroundings: every URL has the scheme [https], a reference is
    joined to its base by concatenation, and every request fails in the
    secure-transport handshake. *)
Definition https_scheme : string -> option string := fun _ => Some "https".
Definition concat_join : string -> string -> option string :=
  fun base url => Some (base +:+ url).
Definition handshake_fails : Net :=
  fun _ _ => Fails (SSLError "handshake failure").

Definition sample_company : Company :=
  <["name" := VStr "TechFlow Solutions"]>
    (<["website" := VStr "https://techflow.example.com"]>
       (<["industry" := VStr "Software Development"]>
          (<["employee_count" := VInt 75]>
             (<["location" := VStr "San Francisco, CA"]> ∅)))).

(** A sample site: a homepage with five links, an "about" page that times
    out until the third request is made, a PDF, and status 404 elsewhere. *)
Definition sample_home : Soup := {|
  select := fun selector =>
    if bool_decide (selector = "main")
    then ["We are  expanding our engineering team.  Urgent need for new servers!"]
    else [];
  headings := ["TechFlow TechFlow Solutions"];
  body := Some "TechFlow";
  get_text := "TechFlow";
  anchors := [("/About", "Who we are"); ("/blog", "Blog"); ("/about", "Our Story");
              ("/x", " Careers "); ("", "Jobs")]
|}.

Definition sample_about : Soup := {|
  select := fun _ => [];
  headings := [];
  body := Some "We raised $5 million.";
  get_text := "";
  anchors := []
|}.

Definition html (doc : Soup) : Reply :=
  Responds {| status_code := 200;
              content_type := Some "text/html; charset=UTF-8";
              document := inr doc |}.

Definition sample_site : Net := fun log url =>
  if bool_decide (url = "https://techflow.example.com") then html sample_home
  else if bool_decide (url = "https://techflow.example.com/About") then
    (if bool_decide (3 <= length log)%nat then html sample_about
     else Fails (Timeout "read timed out"))
  else if bool_decide (url = "https://techflow.example.com/x") then
    Responds {| status_code := 200; content_type := Some "application/pdf";
                document := inr sample_about |}
  else Responds {| status_code := 404; content_type := Some "text/html";
                   document := inr sample_about |}.

(** A result record belongs to an input record: it is the input record with
    a profile stored under ['hardware_intelligence']. *)
Definition result_of (company result : Company) : Prop :=
  ∃ profile, result = <["hardware_intelligence" := VIntel profile]> company.

(** Sample pool behaviour: every task meets the failing network, and the
    wait for the task at position 1 times out. *)
Definition sample_task_net : Z -> nat -> Net := fun _ _ => handshake_fails.
Definition second_overruns : Z -> nat -> bool :=
  fun _ i => bool_decide (i = 1%nat).

Definition other_company : Company :=
  <["name" := VStr "DataCore Analytics"]>
    (<["website" := VStr "https://example.com"]> ∅).

(** Two whitespace characters in a row. *)
Fixpoint has_space_run (s : string) : bool :=
  match s with
  | String c1 s' =>
      match s' with
      | String c2 _ => (Char.isspace c1 && Char.isspace c2) || has_space_run s'
      | "" => false
      end
  | "" => false
  end.

(** Two tokens in a row that are equal up to case. *)
Fixpoint has_repeat (tokens : list string) : bool :=
  match tokens with
  | t1 :: rest =>
      match rest with
      | t2 :: _ => bool_decide (Str.lower t1 = Str.lower t2) || has_repeat rest
      | [] => false
      end
  | [] => false
  end.

Fixpoint no_space (s : string) : bool :=
  match s with
  | "" => true
  | String c s' => negb (Char.isspace c) && no_space s'
  end.

(** A word: a non-empty string without whitespace. *)
Definition is_word (w : string) : bool := negb (Str.is_empty w) && no_space w.

(** The strings that an expression matches, apart from the upper bounds of
    its repetitions, which are not kept. *)
Inductive matches (ic : bool) : Re.regex -> string -> Prop :=
| matches_eps : matches ic Re.Eps ""
| matches_step r c :
    Re.step ic r c = true -> matches ic r (String c "")
| matches_seq r1 r2 w1 w2 :
    matches ic r1 w1 -> matches ic r2 w2 -> matches ic (Re.Seq r1 r2) (w1 +:+ w2)
| matches_alt_l r1 r2 w :
    matches ic r1 w -> matches ic (Re.Alt r1 r2) w
| matches_alt_r r1 r2 w :
    matches ic r2 w -> matches ic (Re.Alt r1 r2) w
| matches_rep_stop hi r :
    matches ic (Re.Rep 0 hi r) ""
| matches_rep_more lo hi r w1 w2 :
    matches ic r w1 -> matches ic (Re.Rep (Nat.pred lo) hi r) w2 ->
    matches ic (Re.Rep lo hi r) (w1 +:+ w2)
| matches_group r w :
    matches ic r w -> matches ic (Re.Group r) w.

(** A character that neither [strip()] nor [rstrip('.,!?:;')] removes. *)
Definition solid (c : ascii) : bool :=
  negb (Char.isspace c) && negb (Str.mem c ".,!?:;").

Definition item_solid (i : Re.citem) : bool :=
  match i with
  | Re.CLit d => solid d
  | Re.CWord | Re.CDigit => true
  | Re.CRange _ _ | Re.CSpace => false
  end.

(** Every character that a one-character expression accepts is solid. *)
Definition char_solid (r : Re.regex) : bool :=
  match r with
  | Re.Lit d => solid d
  | Re.Cls neg items => negb neg && forallb item_solid items
  | _ => false
  end.

(** The expression may match the empty string. *)
Fixpoint may_be_empty (r : Re.regex) : bool :=
  match r with
  | Re.Eps => true
  | Re.Lit _ | Re.Any | Re.Cls _ _ => false
  | Re.Seq r1 r2 => may_be_empty r1 && may_be_empty r2
  | Re.Alt r1 r2 => may_be_empty r1 || may_be_empty r2
  | Re.Rep lo _ r1 => (lo =? 0)%nat || may_be_empty r1
  | Re.Group r1 => may_be_empty r1
  end.

(** A lower bound of the length of a match. *)
Fixpoint min_len (r : Re.regex) : nat :=
  match r with
  | Re.Eps => 0
  | Re.Lit _ | Re.Any | Re.Cls _ _ => 1
  | Re.Seq r1 r2 => min_len r1 + min_len r2
  | Re.Alt r1 r2 => Nat.min (min_len r1) (min_len r2)
  | Re.Rep lo _ r1 => lo * min_len r1
  | Re.Group r1 => min_len r1
  end.

(** Every non-empty match begins with a solid character. *)
Fixpoint starts_solid (r : Re.regex) : bool :=
  match r with
  | Re.Eps => true
  | Re.Lit _ | Re.Any | Re.Cls _ _ => char_solid r
  | Re.Seq r1 r2 =>
      starts_solid r1 && (negb (may_be_empty r1) || starts_solid r2)
  | Re.Alt r1 r2 => starts_solid r1 && starts_solid r2
  | Re.Rep _ _ r1 => starts_solid r1
  | Re.Group r1 => starts_solid r1
  end.

(** Every non-empty match ends with a solid character. *)
Fixpoint ends_solid (r : Re.regex) : bool :=
  match r with
  | Re.Eps => true
  | Re.Lit _ | Re.Any | Re.Cls _ _ => char_solid r
  | Re.Seq r1 r2 =>
      ends_solid r2 && (negb (may_be_empty r2) || ends_solid r1)
  | Re.Alt r1 r2 => ends_solid r1 && ends_solid r2
  | Re.Rep _ _ r1 => ends_solid r1
  | Re.Group r1 => ends_solid r1
  end.

Definition first_char (s : string) : option ascii :=
  match s with
  | "" => None
  | String c _ => Some c
  end.

Fixpoint last_char (s : string) : option ascii :=
  match s with
  | "" => None
  | String c s' =>
      match last_char s' with
      | Some d => Some d
      | None => Some c
      end
  end.

Definition solid_if_any (o : option ascii) : Prop :=
  match o with
  | Some c => solid c = true
  | None => True
  end.

(** The compiled first pattern of the growth table and of the urgency
    table. *)
Definition growth_hiring : Re.regex :=
  Eval vm_compute in
    the_regex (default "" (head growth_patterns)).

Definition urgency_need : Re.regex :=
  Eval vm_compute in
    the_regex (default "" (head urgency_patterns)).

(** The eight lists that [_extract_pattern_matches] fills. *)
Definition pattern_categories (i : Intelligence) : list (list string) := [
  infrastructure_needs i; growth_indicators i; technical_pain_points i;
  decision_makers i; tech_stack i; hardware_opportunities i;
  urgency_signals i; company_scale i
].

(** What a run reports of a profile. *)
Definition summary (i : Intelligence) :=
  (scraping_success i, scraping_error i, pattern_categories i,
   budget_indicators i, business_context i, industry_context i,
   hardware_readiness_score i).

(** The score as the table of weights and caps gives it. *)
Definition weighted_sum (i : Intelligence) : Z :=
  (Z.min 100
     (Z.min 30 (10 * len (infrastructure_needs i))
      + Z.min 25 (8 * len (growth_indicators i))
      + Z.min 20 (7 * len (technical_pain_points i))
      + Z.min 15 (15 * len (urgency_signals i))
      + Z.min 10 (10 * len (budget_indicators i))))%Z.

(** The lengths that the score reads. *)
Definition weighted_lengths (i : Intelligence) : list nat := [
  length (infrastructure_needs i); length (growth_indicators i);
  length (technical_pain_points i); length (urgency_signals i);
  length (budget_indicators i)
].

(** What the accumulation of [_extract_pattern_matches] maintains. *)
Definition well_kept (matches : list string) : Prop :=
  NoDup matches ∧ Forall (fun x => 5 < Str.len x)%Z matches.

(** ** Further notions *)

(** The expressions inside the groups of an expression. *)
Fixpoint groups_of (r : Re.regex) : list Re.regex :=
  match r with
  | Re.Seq r1 r2 | Re.Alt r1 r2 => groups_of r1 ++ groups_of r2
  | Re.Rep _ _ r1 => groups_of r1
  | Re.Group r1 => r1 :: groups_of r1
  | _ => []
  end.

(** Every match of the expression passes through a group. *)
Fixpoint sets_group (r : Re.regex) : bool :=
  match r with
  | Re.Seq r1 r2 => sets_group r1 || sets_group r2
  | Re.Alt r1 r2 => sets_group r1 && sets_group r2
  | Re.Rep lo _ r1 => negb (lo =? 0)%nat && sets_group r1
  | Re.Group _ => true
  | _ => false
  end.

(** The group text [g'] after a match of [r] that began with [g]: the text
    of a match of one of the groups of [r], or still [g] where [r] has a
    way around its groups. *)
Definition captured (ic : bool) (r : Re.regex) (g g' : option string) : Prop :=
  (∃ r1 w, r1 ∈ groups_of r ∧ matches ic r1 w ∧ g' = Some w)
  ∨ (sets_group r = false ∧ g' = g).

Definition all_chars : list ascii := map ascii_of_nat (seq 0 256).

(** Every character that the expression can match satisfies [p]. *)
Fixpoint chars_within (ic : bool) (p : ascii -> bool) (r : Re.regex) : bool :=
  match r with
  | Re.Eps => true
  | Re.Lit _ | Re.Any | Re.Cls _ _ =>
      forallb (fun c => implb (Re.step ic r c) (p c)) all_chars
  | Re.Seq r1 r2 | Re.Alt r1 r2 => chars_within ic p r1 && chars_within ic p r2
  | Re.Rep _ _ r1 | Re.Group r1 => chars_within ic p r1
  end.

Fixpoint every (p : ascii -> bool) (s : string) : bool :=
  match s with
  | "" => true
  | String c s' => p c && every p s'
  end.

(** The characters of an amount: digits, comma and period. *)
Definition amount_char (c : ascii) : bool := Char.isdigit c || Str.mem c ",.".

(** What the budget indicators are made of: an expression whose every
    match sets the group, the group matching only non-empty runs of amount
    characters. *)
Definition captures_amount (r : Re.regex) : Prop :=
  (0 < Re.groups r)%nat ∧ sets_group r = true
  ∧ Forall (fun r1 => chars_within true amount_char r1 = true
                      ∧ (1 <= min_len r1)%nat) (groups_of r).

(** An entry of the budget indicators: the fixed text and an amount. *)
Definition is_indicator (x : string) : Prop :=
  ∃ amount, x = "Financial indicator: $" +:+ amount
            ∧ amount ≠ "" ∧ every amount_char amount = true.

(** A pattern that has no group, if it compiles. *)
Definition groupless (pattern : string) : Prop :=
  ∀ r, Re.compile pattern = Some r -> Re.groups r = 0%nat.

(** The tags of [industry_keywords], in the order of the table. *)
Definition industry_tags : list string :=
  ["fintech"; "healthcare"; "ecommerce"; "saas"; "startup"].

(** The characters that the cleaning of a text lets through in a word. *)
Definition permitted (c : ascii) : bool :=
  Char.isword c || Str.mem c ".,!?:;-()$%+#".

(** A link that names a priority page: one of the keywords occurs in its
    lower-cased [href] or in its lower-cased, stripped text. *)
Definition priority_link (link : string * string) : Prop :=
  ∃ category keywords keyword,
    (category, keywords) ∈ priority_pages
    ∧ keyword ∈ keywords
    ∧ Str.contains keyword (Str.lower link.1)
      || Str.contains keyword (Str.strip (Str.lower link.2)) = true.

(** What the search for strategic pages maintains about repetitions: the
    pages are distinct, and each is the base URL or in [found_pages]. *)
Definition pages_distinct (base_url : string) (st : Found) : Prop :=
  NoDup st.2 ∧ ∀ x, x ∈ st.2 -> x = base_url ∨ x ∈ st.1.

(** The header that goes in front of the text of a page. *)
Definition page_header (page_url : string) : string :=
  Str.nl +:+ "--- " +:+ page_url +:+ " ---" +:+ Str.nl.

(** A record without a name. *)
Definition nameless_company : Company :=
  <["website" := VStr "https://example.com"]> ∅.


(** ** Prospects and summaries *)

(** [company.get('hardware_intelligence', {})], as far as the reports read
    it: the profile, or nothing for a record without the key.  On a value
    that is not a dictionary the [.get] that follows raises
    [AttributeError]. *)
Definition stored_profile (company : Company) : Exn + option Intelligence :=
  match company !! "hardware_intelligence" with
  | None => inr None
  | Some (VIntel i) => inr (Some i)
  | Some (VStr _) => inl (OtherError "'str' object has no attribute 'get'")
  | Some (VInt _) => inl (OtherError "'int' object has no attribute 'get'")
  | Some VNone => inl (OtherError "'NoneType' object has no attribute 'get'")
  end.

(** [company.get('hardware_intelligence', {}).get('hardware_readiness_score', 0)] *)
Definition stored_score (company : Company) : Exn + Z :=
  match stored_profile company with
  | inl e => inl e
  | inr None => inr 0%Z
  | inr (Some i) => inr (hardware_readiness_score i)
  end.

(** The key of the sort, for a record whose score can be read. *)
Definition score_key (company : Company) : Z :=
  match stored_score company with
  | inr score => score
  | inl _ => 0%Z
  end.

(** [l.sort(key=key, reverse=True)]: the sort is stable, so that the
    result is the arrangement by falling key in which elements of equal
    key keep their order; it is computed here by insertion. *)
Fixpoint insert_desc {A} (key : A -> Z) (x : A) (l : list A) : list A :=
  match l with
  | [] => [x]
  | y :: l' =>
      if bool_decide (key x < key y)%Z then y :: insert_desc key x l'
      else x :: l
  end.

Definition sort_desc {A} (key : A -> Z) (l : list A) : list A :=
  foldr (insert_desc key) [] l.

(** The list comprehension of [get_top_prospects]; the first record whose
    score cannot be read raises. *)
Fixpoint select_prospects (companies : list Company) (min_score : Z)
    : Exn + list Company :=
  match companies with
  | [] => inr []
  | company :: rest =>
      match stored_score company with
      | inl e => inl e
      | inr score =>
          match select_prospects rest min_score with
          | inl e => inl e
          | inr prospects =>
              inr (if bool_decide (min_score <= score)%Z
                   then company :: prospects else prospects)
          end
      end
  end.

Definition get_top_prospects (companies : list Company) (min_score : Z)
    : Exn + list Company :=
  match select_prospects companies min_score with
  | inl e => inl e
  | inr prospects => inr (sort_desc score_key prospects)
  end.

(** [Counter(items)]: the distinct items with the number of their
    occurrences, in the order of their first occurrence. *)
Fixpoint count_up (item : string) (counts : list (string * nat))
    : list (string * nat) :=
  match counts with
  | [] => [(item, 1%nat)]
  | (x, n) :: rest =>
      if bool_decide (x = item) then (x, S n) :: rest
      else (x, n) :: count_up item rest
  end.

Definition counter (items : list string) : list (string * nat) :=
  foldl (fun counts item => count_up item counts) [] items.

(** [_get_top_mentions]; [most_common(top_n)] is the first [top_n] of the
    counts sorted by falling count, items of equal count in the order of the
    counter. *)
Definition _get_top_mentions (items : list string) (top_n : nat) : list string :=
  match items with
  | [] => []
  | _ =>
      map fst (take top_n
                 (sort_desc (fun p : string * nat => Z.of_nat p.2)
                    (counter (map Str.lower items))))
  end.

(** The number of the items that are [x] after lower-casing. *)
Definition mentions (x : string) (items : list string) : nat :=
  length (filter (fun item => Str.lower item = x) items).

(** The profiles of the records, or the exception of the first record
    whose profile cannot be read. *)
Fixpoint stored_profiles (companies : list Company)
    : Exn + list (option Intelligence) :=
  match companies with
  | [] => inr []
  | company :: rest =>
      match stored_profile company with
      | inl e => inl e
      | inr profile =>
          match stored_profiles rest with
          | inl e => inl e
          | inr profiles => inr (profile :: profiles)
          end
      end
  end.

(** [intel.get(key, default)] on the profile read. *)
Definition intel_get {A} (field : Intelligence -> A) (default : A)
    (profile : option Intelligence) : A :=
  match profile with
  | Some i => field i
  | None => default
  end.

(** The entries of the summary that are integers and lists; the success
    rate and the average score are floating-point values and are not part
    of this record. *)
Record ProspectSummary : Type := {
  total_companies : Z;
  successful_scrapes : Z;
  high_potential_leads : Z;
  medium_potential_leads : Z;
  low_potential_leads : Z;
  top_infrastructure_needs : list string;
  top_pain_points : list string;
  top_hardware_opportunities : list string
}.

(** [sum(1 for x in l if p(x))] *)
Definition count_if {A} (p : A -> bool) (l : list A) : Z :=
  len (List.filter p l).

Definition generate_prospect_summary (companies : list Company)
    : Exn + ProspectSummary :=
  match stored_profiles companies with
  | inl e => inl e
  | inr profiles =>
      let scores := map (intel_get hardware_readiness_score 0%Z) profiles in
      inr {|
        total_companies := len companies;
        successful_scrapes :=
          count_if (intel_get scraping_success false) profiles;
        high_potential_leads := count_if (fun s => bool_decide (50 <= s)%Z) scores;
        medium_potential_leads :=
          count_if (fun s => bool_decide (20 <= s < 50)%Z) scores;
        low_potential_leads := count_if (fun s => bool_decide (s < 20)%Z) scores;
        top_infrastructure_needs :=
          _get_top_mentions
            (concat (map (intel_get infrastructure_needs []) profiles)) 5;
        top_pain_points :=
          _get_top_mentions
            (concat (map (intel_get technical_pain_points []) profiles)) 5;
        top_hardware_opportunities :=
          _get_top_mentions
            (concat (map (intel_get hardware_opportunities []) profiles)) 5
      |}
  end.

(** A record whose profile, if it has one, is a dictionary. *)
Definition readable (company : Company) : Prop :=
  ∃ profile, stored_profile company = inr profile.

(** The order of a list sorted by falling key. *)
Definition falling {A} (key : A -> Z) : relation A :=
  fun a b => (key b <= key a)%Z.

(** The number of occurrences of [x]. *)
Definition tally (x : string) (l : list string) : nat :=
  length (filter (fun y => y = x) l).

(** What the counter holds after the items of [done]: every item once,
    with the number of its occurrences. *)
Definition counted (done : list string) (counts : list (string * nat)) : Prop :=
  NoDup (map fst counts)
  /\ (∀ x n, (x, n) ∈ counts -> n = tally x done)
  /\ (∀ x, x ∈ done <-> x ∈ map fst counts).

(** A record with a profile of the given score, and a list of leads: two
    of them share a score, and one has no profile. *)
Definition scored_company (name : string) (score : Z) : Company :=
  <["hardware_intelligence" := VIntel (with_score (blank_intelligence None) score)]>
    (<["name" := VStr name]> ∅).

Definition sample_leads : list Company :=
  [scored_company "Alpha" 35; scored_company "Beta" 70; sample_company;
   scored_company "Gamma" 70; scored_company "Delta" 45].

(** What [_scrape_single_page] returns for the outcome of the request it
    ends with: the handler's record for an exception, and for a response
    the check of the content type, the parse and the extraction. *)
Definition page_of_outcome (outcome : Exn + Response) : PageData :=
  match outcome with
  | inl e => page_error e
  | inr response =>
      if negb (Str.contains "text/html"
                 (Str.lower (default "" (content_type response))))
      then failed_page "Not HTML content"
      else
        match document response with
        | inl e => page_error e
        | inr doc =>
            {| success := true;
               content := _clean_text_enhanced (_extract_main_content_enhanced doc);
               soup := Some doc;
               error := None |}
        end
  end.

(** Every fetch of the loop over the pages fails: the fetch of each page,
    made with the log as the fetches before it left it. *)
Fixpoint fetches_fail (urlparse_scheme : string -> option string) (net : Net)
    (pages : list string) (log : list string) : Prop :=
  match pages with
  | [] => True
  | page_url :: rest =>
      let result := _scrape_single_page urlparse_scheme net page_url log in
      success result.1 = false
      /\ fetches_fail urlparse_scheme net rest result.2
  end.

(** The content built from the texts of pages, each behind the header of
    its page, starting from [all_content]. *)
Definition gathered_from (all_content : string)
    (chunks : list (string * string)) : string :=
  foldl (fun all_content page => all_content +:+ page_header page.1 +:+ page.2)
    all_content chunks.


(** A record whose profile is [None]. *)
Definition unread_company : Company :=
  <["hardware_intelligence" := VNone]> sample_company.

(** * Properties *)

(** ** The matcher on sample texts

    The results are those of Python's [re.findall] and [re.sub] with the
    same arguments. *)

Example findall_growth :
  Re.findall
    "(?:hiring|recruiting|adding|expanding) (?:\w+ )?(?:team|developers?|engineers?|staff)"
    "we are expanding our engineering team and hiring developers. hiring 20 staff, adding team!"
    true
  = Some ["expanding our engineer"; "hiring developers"; "hiring 20 staff";
          "adding team"].
Proof. by vm_compute. Qed.

Example findall_amounts :
  Re.findall
    "(?:investment|capital|funding|raised|budget|revenue)\s+(?:of\s+)?\$?(\d+(?:,\d+)*(?:\.\d+)?)\s*(?:million|thousand|k|m)?"
    "budget of $1,200.50 million. revenue of 3k raised $5 million funding of $7,000,000 investment of 12.5m capital $9"
    true
  = Some ["1,200.50"; "3"; "5"; "7,000,000"; "12.5"; "9"].
Proof. by vm_compute. Qed.

Example findall_bounded_repeat :
  Re.findall "our mission is (?:to )?([^.]{10,80})"
    "our mission is to build the best hardware for everyone. our mission is short. our mission is tiny things"
    true
  = Some ["build the best hardware for everyone"; "tiny things"].
Proof. by vm_compute. Qed.

Example findall_case_insensitive :
  Re.findall "(?:rfp|request for proposal|quotes?|proposals?|vendors?)"
    "RFP and Quotes; proposal vendors" true
  = Some ["RFP"; "Quotes"; "proposal"; "vendors"].
Proof. by vm_compute. Qed.

Example compile_rejects_repeated_repeat : Re.compile "a**" = None.
Proof. by vm_compute. Qed.

Example clean_text_sample :
  _clean_text_enhanced
    "  Hello   hello WORLD a we We us @ cookie Policy!! the THE The end. aI x  "
  = "Hello WORLD we us Policy!! the end. aI".
Proof. by vm_compute. Qed.

(** The pattern literals of the two local tables all compile. *)
Lemma local_tables_compile :
  map Re.compile budget_patterns = map Some budget_regexes
  ∧ map Re.compile phrase_patterns = map Some phrase_regexes
  ∧ Re.compile "\s+" = Some whitespace_run
  ∧ Re.compile "(?:cookie|privacy policy|terms of service|subscribe|newsletter)"
    = Some web_artifacts
  ∧ Re.compile "[^\w\s\.\,\!\?\:\;\-\(\)\$\%\+\#]" = Some special_character.
Proof. by vm_compute. Qed.

(** The patterns of the eight tables all compile. *)
Lemma pattern_tables_compile :
  Forall (fun pattern => is_Some (Re.compile pattern))
    (infrastructure_patterns ++ growth_patterns ++ pain_point_patterns
     ++ decision_maker_patterns ++ tech_infrastructure_patterns
     ++ hardware_needs_patterns ++ urgency_patterns ++ company_scale_patterns).
Proof.
  apply Forall_forall. intros pattern Hin.
  unfold infrastructure_patterns, growth_patterns, pain_point_patterns,
    decision_maker_patterns, tech_infrastructure_patterns,
    hardware_needs_patterns, urgency_patterns, company_scale_patterns in Hin.
  simpl in Hin.
  repeat (apply elem_of_cons in Hin as [-> | Hin]; [vm_compute; by eexists|]).
  by apply elem_of_nil in Hin.
Qed.

(** ** Scoring *)

Lemma readiness_score_weighted_sum i : readiness_score i = weighted_sum i.
Proof.
  unfold readiness_score, weighted_sum, len.
  repeat case_bool_decide;
    repeat match goal with H : _ = [] |- _ => rewrite H; clear H end;
    simpl length; lia.
Qed.

Lemma weighted_sum_range i : (0 <= weighted_sum i <= 100)%Z.
Proof. unfold weighted_sum, len. lia. Qed.

(** C1. The readiness score of a record that carries a profile is the
    weighted sum of the table, each term capped and the sum capped at 100;
    it lies between 0 and 100, and two profiles whose five weighted lists
    have the same lengths get the same score, whatever else they hold. *)
Theorem readiness_score_is_capped_weighted_sum :
  ∀ (company : Company) (i : Intelligence),
    _calculate_hardware_readiness_score
      (<["hardware_intelligence" := VIntel i]> company) = inr (weighted_sum i)
    ∧ (0 <= weighted_sum i <= 100)%Z
    ∧ (∀ i', weighted_lengths i' = weighted_lengths i →
             readiness_score i' = readiness_score i).
Proof.
  intros company i. split; [|split].
  - unfold _calculate_hardware_readiness_score, get_intelligence.
    rewrite lookup_insert_eq. by rewrite readiness_score_weighted_sum.
  - apply weighted_sum_range.
  - intros i' Hlen. rewrite !readiness_score_weighted_sum.
    unfold weighted_sum, len. unfold weighted_lengths in Hlen.
    injection Hlen as -> -> -> -> ->. done.
Qed.

(** ** Signal extraction *)

Lemma extract_hardware_intelligence_profile (company : Company) i content :
  _extract_hardware_intelligence
    (<["hardware_intelligence" := VIntel i]> company) content
  = inr (<["hardware_intelligence" :=
            VIntel (add_context (add_signals i (Str.lower content))
                      (Str.lower content))]> company).
Proof.
  unfold _extract_hardware_intelligence, _extract_additional_context,
    get_intelligence.
  rewrite lookup_insert_eq, insert_insert_eq, lookup_insert_eq.
  by rewrite insert_insert_eq.
Qed.

Lemma add_matches_well_kept found matches :
  well_kept matches → well_kept (add_matches found matches).
Proof.
  revert matches. induction found as [|m rest IH]; intros matches Hk; [done|].
  simpl. destruct (bool_decide (5 < Str.len (clean_match m))%Z) eqn:Hlong;
    simpl; [|by apply IH].
  destruct (bool_decide (clean_match m ∉ matches)) eqn:Hnew; simpl; [|by apply IH].
  apply bool_decide_eq_true in Hlong, Hnew.
  assert (well_kept (matches ++ [clean_match m])) as Hk'.
  { destruct Hk as [Hnd Hall]. split.
    - apply NoDup_app. split; [done|]. split; [|apply NoDup_singleton].
      intros x Hx Hx'. apply list_elem_of_singleton in Hx'. by subst.
    - apply Forall_app. split; [done|]. by apply Forall_singleton. }
  case_bool_decide; [done | by apply IH].
Qed.

Lemma pattern_loop_well_kept content patterns matches :
  well_kept matches → well_kept (pattern_loop content patterns matches).
Proof.
  revert matches. induction patterns as [|p rest IH]; intros matches Hk; [done|].
  simpl. destruct (Re.findall p content true); apply IH; [|done].
  by apply add_matches_well_kept.
Qed.

Lemma extract_pattern_matches_bounds content patterns category :
  let l := _extract_pattern_matches content patterns category in
  (length l <= 5)%nat ∧ NoDup l ∧ ∀ x, x ∈ l → (5 < Str.len x)%Z.
Proof.
  unfold _extract_pattern_matches.
  destruct (pattern_loop_well_kept content patterns []) as [Hnd Hall].
  { split; [apply NoDup_nil_2 | apply Forall_nil_2]. }
  split; [rewrite length_take; lia|]. split.
  - eapply sublist_NoDup; [done | apply sublist_take].
  - apply Forall_forall. by apply Forall_take.
Qed.

(** C3, as amended.  Whatever the text, each of the eight lists that the
    pattern tables fill has at most 5 entries, no entry twice, and only
    entries longer than 5 characters.  (The budget indicators are not
    covered: that list is not deduplicated.) *)
Theorem pattern_categories_bounded_and_distinct :
  ∀ (company : Company) (i : Intelligence) (text : string),
    ∃ profile,
      _extract_hardware_intelligence
        (<["hardware_intelligence" := VIntel i]> company) text
      = inr (<["hardware_intelligence" := VIntel profile]> company)
      ∧ ∀ l, l ∈ pattern_categories profile →
             (length l <= 5)%nat ∧ NoDup l ∧ ∀ x, x ∈ l → (5 < Str.len x)%Z.
Proof.
  intros company i text. eexists. split.
  - apply extract_hardware_intelligence_profile.
  - intros l Hl. unfold pattern_categories in Hl. simpl in Hl.
    repeat (apply elem_of_cons in Hl as [-> | Hl];
            [apply extract_pattern_matches_bounds|]).
    by apply elem_of_nil in Hl.
Qed.

(** C3, the claim as stated fails for the budget indicators: one mention of
    an amount is found by two of the budget patterns and entered twice. *)
Lemma budget_indicators_hold_an_entry_twice :
  ∃ profile,
    _extract_hardware_intelligence
      (<["hardware_intelligence" := VIntel (blank_intelligence None)]> ∅)
      "We raised $5 million"
    = inr (<["hardware_intelligence" := VIntel profile]> ∅)
    ∧ budget_indicators profile
      = ["Financial indicator: $5"; "Financial indicator: $5"]
    ∧ ¬ NoDup (budget_indicators profile).
Proof.
  eexists. split; [apply extract_hardware_intelligence_profile|].
  split; [by vm_compute|].
  intros Hnd. vm_compute in Hnd. apply NoDup_cons in Hnd as [Hnotin _].
  apply Hnotin. apply list_elem_of_here.
Qed.

Lemma add_indicators_form found indicators :
  Forall (fun x => ∃ amount, x = "Financial indicator: $" +:+ amount) indicators →
  Forall (fun x => ∃ amount, x = "Financial indicator: $" +:+ amount)
         (add_indicators found indicators).
Proof.
  revert indicators. induction found as [|m rest IH]; intros indicators H; [done|].
  simpl.
  assert (Forall (fun x => ∃ amount, x = "Financial indicator: $" +:+ amount)
                 (indicators ++ ["Financial indicator: $" +:+ m])) as H'.
  { apply Forall_app. split; [done|]. apply Forall_singleton. by eexists. }
  case_bool_decide; [done | by apply IH].
Qed.

(** Every budget indicator has the form [Financial indicator: $<amount>]. *)
Lemma budget_indicators_form content x :
  x ∈ _extract_budget_indicators content →
  ∃ amount, x = "Financial indicator: $" +:+ amount.
Proof.
  unfold _extract_budget_indicators.
  assert (∀ regexes indicators,
    Forall (fun x => ∃ amount, x = "Financial indicator: $" +:+ amount) indicators →
    Forall (fun x => ∃ amount, x = "Financial indicator: $" +:+ amount)
           (budget_loop content regexes indicators)) as Hloop.
  { induction regexes as [|r rest IH]; intros indicators H; [done|].
    simpl. apply IH. by apply add_indicators_form. }
  intros Hx. specialize (Hloop budget_regexes [] (Forall_nil_2 _)).
  rewrite Forall_forall in Hloop. by apply Hloop.
Qed.

(** C2, at the failing input: four amounts announced by "budget of" give
    four budget indicators, the fourth entered by the last pattern after
    the first pattern stopped at three. *)
Theorem budget_indicators_beyond_three :
  _extract_budget_indicators
    "budget of $1, budget of $2, budget of $3, budget of $4"
  = ["Financial indicator: $1"; "Financial indicator: $2";
     "Financial indicator: $3"; "Financial indicator: $1"].
Proof. by vm_compute. Qed.

(** ** Fetching *)

Lemma get_log net url log : (get net url log).2 = log ++ [url].
Proof. done. Qed.

(** C7, as amended.  The first request is followed by exactly one second
    request when it fails with an exception of the [requests] family, the
    secure-transport error included, and the fetch then returns what it
    returns for the outcome of the second request, with the tag [SSL Error]
    where that one fails in the handshake.  A first request that succeeds,
    or fails otherwise, is the only request, and the fetch returns what it
    returns for the outcome of that request. *)
Theorem failed_request_is_retried_once :
  ∀ (urlparse_scheme : string -> option string) (net : Net)
    (url scheme : string) (log : list string),
    urlparse_scheme url = Some scheme →
    let u := force_https scheme url in
    let result := _scrape_single_page urlparse_scheme net url log in
    match (get net u log).1 with
    | inl e =>
        if is_RequestException e
        then result.2 = log ++ [u; u]
             ∧ result.1 = page_of_outcome (get net u (log ++ [u])).1
             ∧ ∀ msg, (get net u (log ++ [u])).1 = inl (SSLError msg) →
                      result.1 = failed_page ("SSL Error: " +:+ msg)
        else result.2 = log ++ [u] ∧ result.1 = page_error e
    | inr response =>
        result.2 = log ++ [u] ∧ result.1 = page_of_outcome (inr response)
    end.
Proof.
  intros urlparse_scheme net url scheme log Hscheme u result.
  subst result. unfold _scrape_single_page. rewrite Hscheme. fold u.
  destruct (get net u log) as [first log1] eqn:Hfirst.
  assert (log1 = log ++ [u]) as -> by (by rewrite <- (get_log net u log), Hfirst).
  simpl. destruct first as [e|response].
  - destruct (is_RequestException e) eqn:He.
    + destruct (get net u (log ++ [u])) as [second log2] eqn:Hsecond.
      assert (log2 = (log ++ [u]) ++ [u]) as ->
        by (by rewrite <- (get_log net u (log ++ [u])), Hsecond).
      assert ((get net u (log ++ [u])).1 = second) as Hout by (by rewrite Hsecond).
      rewrite <- app_assoc. simpl. simpl in Hout. rewrite Hout. clear Hout Hsecond.
      destruct second as [e2|r2]; simpl.
      * split; [done|]. split; [done|]. by intros msg [= ->].
      * destruct (negb _); [by repeat split|].
        destruct (document r2); by repeat split.
    + done.
  - simpl. destruct (negb _); [done|]. by destruct (document response).
Qed.

Lemma failed_request_is_retried_once_witness :
  let u := force_https "https" "https://techflow.example.com" in
  let result :=
    _scrape_single_page https_scheme handshake_fails
      "https://techflow.example.com" [] in
  result.2 = [] ++ [u; u]
  ∧ result.1 = page_of_outcome (get handshake_fails u ([] ++ [u])).1
  ∧ ∀ msg, (get handshake_fails u ([] ++ [u])).1 = inl (SSLError msg) →
           result.1 = failed_page ("SSL Error: " +:+ msg).
Proof.
  exact (failed_request_is_retried_once https_scheme handshake_fails
           "https://techflow.example.com" "https" [] eq_refl).
Defined.

(** C7, the claim as stated fails: a first request that fails in the
    secure-transport handshake is followed by a second request for the same
    URL. *)
Lemma handshake_failure_is_retried :
  _scrape_single_page https_scheme handshake_fails
    "https://techflow.example.com" []
  = (failed_page "SSL Error: handshake failure",
     ["https://techflow.example.com"; "https://techflow.example.com"]).
Proof. by vm_compute. Qed.

(** ** Page selection *)

Section PageSelection.

Variable urljoin : string -> string -> option string.
Variable base_url : string.

Lemma keyword_loop_kept link keywords st :
  pages_kept base_url st →
  pages_kept base_url (ctl_state (keyword_loop urljoin base_url link keywords st)).
Proof.
  intros Hst. induction keywords as [|keyword rest IH]; [done|].
  simpl. destruct (_ && bool_decide (size st.1 < 4)%nat) eqn:Hcond; [|done].
  apply andb_true_iff in Hcond as [_ Hroom].
  apply bool_decide_eq_true in Hroom.
  destruct (urljoin base_url link.1) as [full_url|]; [|done].
  destruct (bool_decide (full_url ∉ st.1) && _) eqn:Hnew; [|done].
  apply andb_true_iff in Hnew as [Hnew _].
  apply bool_decide_eq_true in Hnew.
  destruct Hst as ([others Hpages] & Hlen & _). simpl.
  assert (size ({[full_url]} ∪ st.1) = S (size st.1)) as Hsize.
  { rewrite size_union by set_solver. by rewrite size_singleton. }
  split; [|split]; simpl.
  - exists (others ++ [full_url]). by rewrite Hpages.
  - rewrite length_app, Hsize, Hlen. simpl. lia.
  - rewrite Hsize. lia.
Qed.

Lemma category_loop_kept link categories st :
  pages_kept base_url st →
  pages_kept base_url
    (ctl_state (category_loop urljoin base_url link categories st)).
Proof.
  revert st. induction categories as [|[category keywords] rest IH];
    intros st Hst; [done|].
  simpl. pose proof (keyword_loop_kept link keywords st Hst) as Hk.
  destruct (keyword_loop urljoin base_url link keywords st) as [st'|st'|st'];
    simpl in Hk; [| |exact Hk]; (case_bool_decide; [exact Hk | by apply IH]).
Qed.

Lemma link_loop_kept links st :
  pages_kept base_url st →
  pages_kept base_url (link_loop urljoin base_url links st).
Proof.
  revert st. induction links as [|link rest IH]; intros st Hst; [done|].
  cbn [link_loop]. pose proof (category_loop_kept link priority_pages st Hst) as Hk.
  destruct (category_loop urljoin base_url link priority_pages st)
    as [st'|st'|st']; simpl in Hk; [| |exact Hk];
    (case_bool_decide; [exact Hk | by apply IH]).
Qed.

End PageSelection.

(** C6.  Page selection returns between one and five URLs, the base URL
    first, and the base URL alone when the fetch of the homepage fails. *)
Theorem strategic_pages_start_with_base_url :
  ∀ (urlparse_scheme : string -> option string)
    (urljoin : string -> string -> option string) (net : Net)
    (base_url : string) (log : list string),
    let pages :=
      (_get_strategic_pages urlparse_scheme urljoin net base_url log).1 in
    (1 <= length pages <= 5)%nat
    ∧ head pages = Some base_url
    ∧ (success (_scrape_single_page urlparse_scheme net base_url log).1 = false →
       pages = [base_url]).
Proof.
  intros urlparse_scheme urljoin net base_url log. unfold _get_strategic_pages.
  destruct (_scrape_single_page urlparse_scheme net base_url log)
    as [homepage_data log'].
  simpl. destruct (success homepage_data); simpl.
  - destruct (soup homepage_data) as [doc|]; simpl.
    + pose proof (link_loop_kept urljoin base_url (anchors doc) (∅, [base_url]))
        as Hkept.
      destruct (link_loop urljoin base_url (anchors doc) (∅, [base_url]))
        as [found pages].
      destruct Hkept as ([others Hpages] & Hlen & Hsize).
      { split; [by exists []|]. cbn [fst snd]. rewrite size_empty.
        split; [done | lia]. }
      simpl in *. subst pages. simpl. rewrite length_take.
      simpl in Hlen. split; [lia|]. done.
    + split; [lia|done].
  - split; [lia|done].
Qed.

(** ** The pipeline of one company *)

Section Pipeline.

Variable max_content_length : Z.
Variable urlparse_scheme : string -> option string.
Variable urljoin : string -> string -> option string.
Variable net : Net.

Lemma update_intelligence_insert f (company : Company) i :
  update_intelligence f (<["hardware_intelligence" := VIntel i]> company)
  = inr (<["hardware_intelligence" := VIntel (f i)]> company).
Proof.
  unfold update_intelligence, get_intelligence.
  by rewrite lookup_insert_eq, insert_insert_eq.
Qed.

(** The record after the analysis of a non-empty content is the record
    before it with another profile. *)
Lemma analyse_insert (company : Company) i all_content :
  ∃ profile,
    analyse (<["hardware_intelligence" := VIntel i]> company) all_content
    = <["hardware_intelligence" := VIntel profile]> company.
Proof.
  unfold analyse. rewrite update_intelligence_insert.
  rewrite extract_hardware_intelligence_profile.
  unfold _calculate_hardware_readiness_score, get_intelligence.
  rewrite lookup_insert_eq, update_intelligence_insert. by eexists.
Qed.

(** Where [scrape_company_website] returns, it returns the input record
    with a profile stored under ['hardware_intelligence']. *)
Lemma scrape_company_website_insert (company : Company) log enhanced :
  (scrape_company_website max_content_length urlparse_scheme urljoin net
     company log).1 = inr enhanced →
  ∃ profile, enhanced = <["hardware_intelligence" := VIntel profile]> company.
Proof.
  unfold scrape_company_website.
  destruct (company !! "name"); [|done].
  destruct (company !! "website") as [website|]; [|done].
  destruct (match website with VStr _ => _ | _ => _ end) as [all_content log'].
  destruct (negb (Str.is_empty all_content)); simpl; intros [= <-].
  - apply analyse_insert.
  - rewrite insert_insert_eq. by eexists.
Qed.

Lemma scrape_company_website_returns (company : Company) log name website :
  company !! "name" = Some name →
  company !! "website" = Some website →
  ∃ enhanced,
    (scrape_company_website max_content_length urlparse_scheme urljoin net
       company log).1 = inr enhanced.
Proof.
  intros Hname Hwebsite. unfold scrape_company_website.
  rewrite Hname, Hwebsite.
  destruct (match website with VStr _ => _ | _ => _ end) as [all_content log'].
  destruct (negb (Str.is_empty all_content)); by eexists.
Qed.

Lemma scrape_pages_fetches_fail pages all_content log :
  fetches_fail urlparse_scheme net pages log →
  (scrape_pages max_content_length urlparse_scheme net pages all_content log).1
  = all_content.
Proof.
  revert log. induction pages as [|page_url rest IH]; intros log Hfail; [done|].
  simpl in *. destruct Hfail as [Hfail Hrest].
  destruct (_scrape_single_page urlparse_scheme net page_url log)
    as [page_data log'].
  simpl in Hfail, Hrest. rewrite Hfail. by apply IH.
Qed.

End Pipeline.

(** C5.  For a record with a name and a website, when every fetch that the
    loop over the selected pages of this company makes fails, the pipeline
    returns, without raising, the record with a profile that tells the
    failure: no success, score 0, every list empty, and the error text
    [No content extracted from any pages].  Nothing is asked of the network
    at other addresses or at other times. *)
Theorem unreachable_site_gives_failure_profile :
  ∀ (max_content_length : Z) (urlparse_scheme : string -> option string)
    (urljoin : string -> string -> option string) (net : Net)
    (company : Company) (name website : value) (log : list string),
    company !! "name" = Some name →
    company !! "website" = Some website →
    (∀ url, website = VStr url →
       let selected :=
         _get_strategic_pages urlparse_scheme urljoin net url log in
       fetches_fail urlparse_scheme net selected.1 selected.2) →
    ∃ profile,
      (scrape_company_website max_content_length urlparse_scheme urljoin net
         company log).1
      = inr (<["hardware_intelligence" := VIntel profile]> company)
      ∧ scraping_success profile = false
      ∧ hardware_readiness_score profile = 0%Z
      ∧ (∀ l, l ∈ pattern_categories profile → l = [])
      ∧ budget_indicators profile = []
      ∧ business_context profile = None
      ∧ industry_context profile = None
      ∧ scraping_error profile = Some "No content extracted from any pages".
Proof.
  intros max_content_length urlparse_scheme urljoin net company name website log
    Hname Hwebsite Hfail.
  exists (blank_intelligence (Some "No content extracted from any pages")).
  split.
  - unfold scrape_company_website. rewrite Hname, Hwebsite.
    assert ((match website with
             | VStr url =>
                 let '(pages_to_scrape, log0) :=
                   _get_strategic_pages urlparse_scheme urljoin net url log in
                 scrape_pages max_content_length urlparse_scheme net
                   pages_to_scrape "" log0
             | _ => ("", log)
             end).1 = "") as Hempty.
    { destruct website as [url| | |]; try done.
      specialize (Hfail url eq_refl). cbv zeta in Hfail.
      destruct (_get_strategic_pages urlparse_scheme urljoin net url log)
        as [pages log0].
      by apply scrape_pages_fetches_fail. }
    destruct (match website with VStr _ => _ | _ => _ end) as [all_content log'].
    simpl in Hempty. subst all_content. simpl.
    by rewrite insert_insert_eq.
  - repeat split; try done.
    intros l Hl. unfold pattern_categories in Hl. simpl in Hl.
    repeat (apply elem_of_cons in Hl as [-> | Hl]; [done|]).
    by apply elem_of_nil in Hl.
Qed.

Lemma unreachable_site_gives_failure_profile_witness :
  ∃ profile,
    (scrape_company_website 4000 https_scheme concat_join sample_site
       other_company []).1
    = inr (<["hardware_intelligence" := VIntel profile]> other_company)
    ∧ scraping_success profile = false
    ∧ hardware_readiness_score profile = 0%Z
    ∧ (∀ l, l ∈ pattern_categories profile → l = [])
    ∧ budget_indicators profile = []
    ∧ business_context profile = None
    ∧ industry_context profile = None
    ∧ scraping_error profile = Some "No content extracted from any pages".
Proof.
  apply (unreachable_site_gives_failure_profile 4000 https_scheme concat_join
           sample_site other_company (VStr "DataCore Analytics")
           (VStr "https://example.com") []).
  - reflexivity.
  - reflexivity.
  - intros url [= <-]. vm_compute. split; [reflexivity | exact I].
Defined.

(** C10.  For a record with a name and a website, the pipeline returns the
    record with the profile stored under ['hardware_intelligence']: every
    other key has the value it had, and for a record that carries no profile
    yet every field of the input is in the result with its value. *)
Theorem scrape_company_website_keeps_input_fields :
  ∀ (max_content_length : Z) (urlparse_scheme : string -> option string)
    (urljoin : string -> string -> option string) (net : Net)
    (company : Company) (name website : value) (log : list string),
    company !! "name" = Some name →
    company !! "website" = Some website →
    ∃ enhanced profile,
      (scrape_company_website max_content_length urlparse_scheme urljoin net
         company log).1 = inr enhanced
      ∧ enhanced = <["hardware_intelligence" := VIntel profile]> company
      ∧ (∀ k, k ≠ "hardware_intelligence" → enhanced !! k = company !! k)
      ∧ (company !! "hardware_intelligence" = None →
         ∀ k v, company !! k = Some v → enhanced !! k = Some v).
Proof.
  intros max_content_length urlparse_scheme urljoin net company name website log
    Hname Hwebsite.
  destruct (scrape_company_website_returns max_content_length urlparse_scheme
              urljoin net company log name website Hname Hwebsite)
    as [enhanced Hres].
  destruct (scrape_company_website_insert _ _ _ _ _ _ _ Hres) as [profile ->].
  exists (<["hardware_intelligence" := VIntel profile]> company), profile.
  split; [done|]. split; [done|]. split.
  - intros k Hk. by rewrite lookup_insert_ne.
  - intros Hfresh k v Hk. rewrite lookup_insert_ne; [done|]. intros <-. congruence.
Qed.

Lemma scrape_company_website_keeps_input_fields_witness :
  ∃ enhanced profile,
    (scrape_company_website 4000 https_scheme concat_join sample_site
       sample_company []).1 = inr enhanced
    ∧ enhanced = <["hardware_intelligence" := VIntel profile]> sample_company
    ∧ (∀ k, k ≠ "hardware_intelligence" → enhanced !! k = sample_company !! k)
    ∧ (sample_company !! "hardware_intelligence" = None →
       ∀ k v, sample_company !! k = Some v → enhanced !! k = Some v).
Proof.
  apply (scrape_company_website_keeps_input_fields 4000 https_scheme concat_join
           sample_site sample_company (VStr "TechFlow Solutions")
           (VStr "https://techflow.example.com") []).
  - reflexivity.
  - reflexivity.
Defined.

(** A run on the sample site.  The homepage is fetched twice, once for its
    links and once for its text; the "about" page answers at its second
    request; the third page has status 404 and the fourth is not HTML. *)
Example sample_site_pages :
  _get_strategic_pages https_scheme concat_join sample_site
    "https://techflow.example.com" []
  = (["https://techflow.example.com"; "https://techflow.example.com/About";
      "https://techflow.example.com/about"; "https://techflow.example.com/x"],
     ["https://techflow.example.com"]).
Proof. by vm_compute. Qed.

Example sample_site_run :
  let '(result, log) :=
    scrape_company_website 4000 https_scheme concat_join sample_site
      sample_company [] in
  match result with
  | inr enhanced =>
      match get_intelligence enhanced with
      | inr profile => Some (summary profile)
      | inl _ => None
      end
  | inl _ => None
  end
  = Some (true, None,
          [[]; ["expanding our engineer"; "raised"]; []; []; []; [];
           ["urgent need"]; []],
          [], Some [], Some [], 31%Z)
  ∧ log = ["https://techflow.example.com"; "https://techflow.example.com";
           "https://techflow.example.com/About";
           "https://techflow.example.com/About";
           "https://techflow.example.com/about";
           "https://techflow.example.com/about";
           "https://techflow.example.com/x"].
Proof. by vm_compute. Qed.

(** ** The batch driver *)

Section BatchProperties.

Variable max_content_length : Z.
Variable urlparse_scheme : string -> option string.
Variable urljoin : string -> string -> option string.
Variable task_net : Z -> nat -> Net.
Variable overruns : Z -> nat -> bool.

Lemma collect_in_order max_workers companies :
  Forall (fun company : Company => is_Some (company !! "name")) companies →
  ∀ i done_so_far,
  ∃ results,
    collect max_content_length urlparse_scheme urljoin task_net overruns
      max_workers i companies done_so_far = inr (done_so_far ++ results)
    ∧ Forall2 result_of companies results.
Proof.
  induction 1 as [|company rest [name Hname] Hrest IH]; intros i done_so_far.
  - exists []. split; [by rewrite app_nil_r | constructor].
  - simpl. destruct (future_result _ _ _ _ _ _ _ company) as [e|enhanced] eqn:Hres.
    + rewrite Hname.
      destruct (IH (S i) (done_so_far ++
        [<["hardware_intelligence" :=
            VIntel (blank_intelligence (Some (str_of_exn e)))]> company]))
        as (results & -> & Hall).
      eexists (_ :: results). split; [by rewrite <- app_assoc|].
      constructor; [by eexists | done].
    + destruct (IH (S i) (done_so_far ++ [enhanced])) as (results & -> & Hall).
      exists (enhanced :: results). split; [by rewrite <- app_assoc|].
      constructor; [|done].
      unfold future_result in Hres. destruct (overruns max_workers i); [done|].
      by eapply scrape_company_website_insert.
Qed.

End BatchProperties.

(** C9.  For a pool of at least one worker and input records that have a
    name, the batch returns, whatever the network does to each task and
    whichever waits time out, one result per input record, in the order of
    the input: the result at each position is the input record at that
    position with a profile. *)
Theorem batch_results_follow_input_order :
  ∀ (max_content_length : Z) (urlparse_scheme : string -> option string)
    (urljoin : string -> string -> option string)
    (task_net : Z -> nat -> Net) (overruns : Z -> nat -> bool)
    (companies : list Company) (max_workers : Z),
    (0 < max_workers)%Z →
    Forall (fun company : Company => is_Some (company !! "name")) companies →
    ∃ results,
      scrape_multiple_companies max_content_length urlparse_scheme urljoin
        task_net overruns companies max_workers = inr results
      ∧ length results = length companies
      ∧ Forall2 result_of companies results.
Proof.
  intros max_content_length urlparse_scheme urljoin task_net overruns companies
    max_workers Hworkers Hnames.
  unfold scrape_multiple_companies. rewrite bool_decide_eq_false_2 by lia.
  destruct (collect_in_order max_content_length urlparse_scheme urljoin task_net
              overruns max_workers companies Hnames 0%nat [])
    as (results & Hres & Hall).
  exists results. split; [done|]. split; [|done].
  symmetry. by eapply Forall2_length.
Qed.

Lemma batch_results_follow_input_order_witness :
  ∃ results,
    scrape_multiple_companies 4000 https_scheme concat_join sample_task_net
      second_overruns [sample_company; other_company; sample_company] 2
    = inr results
    ∧ length results = length [sample_company; other_company; sample_company]
    ∧ Forall2 result_of [sample_company; other_company; sample_company] results.
Proof.
  apply (batch_results_follow_input_order 4000 https_scheme concat_join
           sample_task_net second_overruns
           [sample_company; other_company; sample_company] 2).
  - lia.
  - repeat constructor; by eexists.
Defined.

(** ** Text cleaning *)

Section Words.

Local Arguments String.append : simpl nomatch.

Lemma split_words s : Forall (fun w => is_word w = true) (Str.split s).
Proof.
  induction s as [|c s IH]; [constructor|].
  cbn [Str.split]. destruct (Char.isspace c) eqn:Hc; [done|].
  assert (is_word (String c "") = true) as Hone
    by (unfold is_word; simpl; by rewrite Hc).
  destruct s as [|c' s']; [by repeat constructor|].
  destruct (Char.isspace c') eqn:Hc'; [by constructor|].
  destruct (Str.split (String c' s')) as [|w ws]; [by repeat constructor|].
  inversion IH as [|? ? Hw Hws]; subst. constructor; [|done].
  unfold is_word in *. simpl. rewrite Hc. simpl.
  by apply andb_true_iff in Hw as [_ ->].
Qed.

Lemma drop_repeats_words prev ws :
  Forall (fun w => is_word w = true) ws →
  Forall (fun w => is_word w = true) (drop_repeats prev ws).
Proof.
  intros Hws. revert prev. induction Hws as [|w ws Hw Hws IH]; intros prev;
    [constructor|].
  simpl. case_bool_decide; [constructor|]; auto.
Qed.

Lemma has_repeat_tail t tokens :
  has_repeat (t :: tokens) = false → has_repeat tokens = false.
Proof.
  destruct tokens as [|t' rest]; [done|].
  cbn [has_repeat]. intros H. by apply orb_false_iff in H as [_ H].
Qed.

Lemma drop_repeats_no_repeat prev ws :
  has_repeat (prev :: drop_repeats prev ws) = false.
Proof.
  revert prev. induction ws as [|w ws IH]; intros prev; [done|].
  cbn [drop_repeats]. case_bool_decide as Hne; [|apply IH].
  change (bool_decide (Str.lower prev = Str.lower w)
          || has_repeat (w :: drop_repeats w ws) = false).
  rewrite IH, orb_false_r. apply bool_decide_eq_false. congruence.
Qed.

Lemma is_word_cons c w :
  is_word (String c w) = true →
  Char.isspace c = false ∧ (w = "" ∨ is_word w = true).
Proof.
  unfold is_word. simpl. intros H.
  apply andb_true_iff in H as [Hc Hw]. apply negb_true_iff in Hc.
  split; [done|]. destruct w; [by left | right; done].
Qed.

Lemma split_cons2 c c' s :
  Char.isspace c = false → Char.isspace c' = false →
  Str.split (String c (String c' s))
  = match Str.split (String c' s) with
    | w :: ws => String c w :: ws
    | [] => [String c ""]
    end.
Proof. intros Hc Hc'. simpl. by rewrite Hc, Hc'. Qed.

Lemma split_word w : is_word w = true → Str.split w = [w].
Proof.
  induction w as [|c w IH]; [done|]. intros Hw.
  apply is_word_cons in Hw as [Hc [-> | Hw]]; [simpl; by rewrite Hc|].
  destruct w as [|c' w']; [done|].
  destruct (is_word_cons _ _ Hw) as [Hc' _].
  by rewrite split_cons2, (IH Hw).
Qed.

Lemma split_word_space w s :
  is_word w = true → Str.split (w +:+ String " " s) = w :: Str.split s.
Proof.
  induction w as [|c w IH]; [done|]. intros Hw.
  apply is_word_cons in Hw as [Hc [-> | Hw]]; [cbn; by rewrite Hc|].
  destruct w as [|c' w']; [done|].
  destruct (is_word_cons _ _ Hw) as [Hc' _].
  change (String c (String c' w') +:+ String " " s)
    with (String c (String c' (w' +:+ String " " s))).
  rewrite split_cons2 by done.
  change (String c' (w' +:+ String " " s))
    with (String c' w' +:+ String " " s).
  by rewrite (IH Hw).
Qed.

Lemma join_cons2 sep w w' ws :
  Str.join sep (w :: w' :: ws) = w +:+ sep +:+ Str.join sep (w' :: ws).
Proof. done. Qed.

Lemma split_join ws :
  Forall (fun w => is_word w = true) ws → Str.split (Str.join " " ws) = ws.
Proof.
  induction 1 as [|w ws Hw Hws IH]; [done|].
  destruct ws as [|w' ws]; [by apply split_word|].
  rewrite join_cons2.
  change (" " +:+ Str.join " " (w' :: ws))
    with (String " " (Str.join " " (w' :: ws))).
  by rewrite split_word_space, IH.
Qed.

(** A joined list of words is empty or begins with a character that is
    not whitespace. *)
Lemma join_words_head ws :
  Forall (fun w => is_word w = true) ws →
  ws ≠ [] →
  ∃ c rest, Str.join " " ws = String c rest ∧ Char.isspace c = false.
Proof.
  intros Hws Hne. destruct Hws as [|w ws Hw Hws]; [done|].
  destruct w as [|c w]; [done|].
  apply is_word_cons in Hw as [Hc _].
  destruct ws; [by exists c, w|].
  rewrite join_cons2. by eexists c, _.
Qed.

Lemma rdrop_no_space w : no_space w = true → Str.rdrop Char.isspace w = w.
Proof.
  induction w as [|c w IH]; [done|]. simpl. intros H.
  apply andb_true_iff in H as [Hc Hw]. apply negb_true_iff in Hc.
  by rewrite Hc, andb_false_r, IH.
Qed.

Lemma rdrop_app p x y :
  Str.rdrop p y ≠ "" → Str.rdrop p (x +:+ y) = x +:+ Str.rdrop p y.
Proof.
  intros Hy. induction x as [|c x IH]; [done|].
  change (String c x +:+ y) with (String c (x +:+ y)).
  change (String c x +:+ Str.rdrop p y) with (String c (x +:+ Str.rdrop p y)).
  cbn [Str.rdrop]. rewrite IH.
  destruct (x +:+ Str.rdrop p y) eqn:Happ; [|done].
  destruct x; [|done]. simpl in Happ. done.
Qed.

Lemma rdrop_join ws :
  Forall (fun w => is_word w = true) ws →
  Str.rdrop Char.isspace (Str.join " " ws) = Str.join " " ws.
Proof.
  induction 1 as [|w ws Hw Hws IH]; [done|].
  destruct ws as [|w' ws].
  - apply rdrop_no_space. unfold is_word in Hw.
    by apply andb_true_iff in Hw as [_ Hw].
  - rewrite join_cons2.
    destruct (join_words_head (w' :: ws) Hws) as (c & rest & Hjoin & Hc);
      [done|].
    assert (Str.rdrop Char.isspace (" " +:+ Str.join " " (w' :: ws))
            = " " +:+ Str.join " " (w' :: ws)) as Htail.
    { rewrite rdrop_app; rewrite IH; [done|]. by rewrite Hjoin. }
    rewrite rdrop_app; rewrite Htail; done.
Qed.

Lemma strip_join ws :
  Forall (fun w => is_word w = true) ws →
  Str.strip (Str.join " " ws) = Str.join " " ws.
Proof.
  intros Hws. unfold Str.strip.
  assert (Str.ldrop Char.isspace (Str.join " " ws) = Str.join " " ws) as ->.
  { destruct ws as [|w ws]; [done|].
    destruct (join_words_head (w :: ws) Hws) as (c & rest & -> & Hc); [done|].
    simpl. by rewrite Hc. }
  by apply rdrop_join.
Qed.

Lemma has_space_run_cons2 c1 c2 s :
  has_space_run (String c1 (String c2 s))
  = (Char.isspace c1 && Char.isspace c2) || has_space_run (String c2 s).
Proof. done. Qed.

Lemma no_space_run_word w : no_space w = true → has_space_run w = false.
Proof.
  induction w as [|c w IH]; [done|]. simpl. intros H.
  apply andb_true_iff in H as [Hc Hw]. apply negb_true_iff in Hc.
  destruct w; [done|]. by rewrite Hc, IH.
Qed.

Lemma no_space_run_word_space w c rest :
  is_word w = true → Char.isspace c = false →
  has_space_run (w +:+ String " " (String c rest))
  = has_space_run (String c rest).
Proof.
  intros Hw Hc. induction w as [|a w IH]; [done|].
  apply is_word_cons in Hw as [Ha [-> | Hw]].
  - cbn. by rewrite Ha, Hc.
  - destruct w as [|a' w']; [done|].
    change (String a (String a' w') +:+ String " " (String c rest))
      with (String a (String a' (w' +:+ String " " (String c rest)))).
    rewrite has_space_run_cons2, Ha.
    change (String a' (w' +:+ String " " (String c rest)))
      with (String a' w' +:+ String " " (String c rest)).
    by rewrite (IH Hw).
Qed.

Lemma no_space_run_join ws :
  Forall (fun w => is_word w = true) ws →
  has_space_run (Str.join " " ws) = false.
Proof.
  induction 1 as [|w ws Hw Hws IH]; [done|].
  destruct ws as [|w' ws].
  - apply no_space_run_word. unfold is_word in Hw.
    by apply andb_true_iff in Hw as [_ Hw].
  - rewrite join_cons2.
    destruct (join_words_head (w' :: ws) Hws) as (c & rest & Hjoin & Hc);
      [done|].
    rewrite Hjoin in *.
    change (" " +:+ String c rest) with (String " " (String c rest)).
    by rewrite no_space_run_word_space.
Qed.

End Words.

(** C8.  The cleaned text has no two tokens in a row that are equal up to
    case, and no two whitespace characters in a row. *)
Theorem cleaned_text_has_no_repeats_and_no_space_runs :
  ∀ text : string,
    let cleaned := _clean_text_enhanced text in
    has_repeat (Str.split cleaned) = false ∧ has_space_run cleaned = false.
Proof.
  intros text. unfold _clean_text_enhanced.
  set (words := filter _ (Str.split _)).
  assert (Forall (fun w => is_word w = true) (drop_repeats "" words)) as Hwords.
  { apply drop_repeats_words. apply Forall_forall. intros w Hw.
    apply list_elem_of_filter in Hw as [_ Hw].
    revert w Hw. apply Forall_forall, split_words. }
  cbv zeta. rewrite strip_join by done. split.
  - rewrite split_join by done.
    apply (has_repeat_tail ""), drop_repeats_no_repeat.
  - by apply no_space_run_join.
Qed.

(** ** Strings and matches *)

Section Strings.

Local Arguments String.append : simpl nomatch.

Lemma append_assoc (a b c : string) : (a +:+ b) +:+ c = a +:+ b +:+ c.
Proof. induction a as [|x a IH]; [done|]. simpl. by rewrite IH. Qed.

Lemma append_empty_r (a : string) : a +:+ "" = a.
Proof. induction a as [|x a IH]; [done|]. simpl. by rewrite IH. Qed.

Lemma length_append (a b : string) :
  String.length (a +:+ b) = (String.length a + String.length b)%nat.
Proof. induction a as [|x a IH]; [done|]. simpl. by rewrite IH. Qed.

Lemma append_empty (a b : string) : a +:+ b = "" -> a = "" ∧ b = "".
Proof. destruct a; [done|]. simpl. done. Qed.

Lemma take_append (a b : string) : Str.take (String.length a) (a +:+ b) = a.
Proof. induction a as [|x a IH]; [by destruct b|]. simpl. by rewrite IH. Qed.

Lemma taken_append (a b : string) : Re.taken (a +:+ b) b = a.
Proof.
  unfold Re.taken. rewrite length_append.
  replace (String.length a + String.length b - String.length b)%nat
    with (String.length a) by lia.
  apply take_append.
Qed.

Lemma lower_append (a b : string) :
  Str.lower (a +:+ b) = Str.lower a +:+ Str.lower b.
Proof. induction a as [|x a IH]; [done|]. simpl. by rewrite IH. Qed.

Lemma startswith_append p s :
  Str.startswith p s = true -> ∃ rest, s = p +:+ rest.
Proof.
  revert s. induction p as [|a p IH]; intros s H; [by exists s|].
  destruct s as [|b s]; [done|]. simpl in H.
  apply andb_true_iff in H as [Hab Hp]. apply Ascii.eqb_eq in Hab as ->.
  destruct (IH s Hp) as [rest ->]. by exists rest.
Qed.

Lemma contains_append sub s :
  Str.contains sub s = true -> ∃ before after, s = before +:+ sub +:+ after.
Proof.
  induction s as [|c s IH]; intros H.
  - destruct sub; [|done]. exists "", "". reflexivity.
  - cbn [Str.contains] in H. apply orb_true_iff in H as [H | H].
    + destruct (startswith_append _ _ H) as [rest ->]. exists "", rest. reflexivity.
    + destruct (IH H) as (before & after & ->).
      exists (String c before), after. reflexivity.
Qed.

Lemma first_char_append a b :
  first_char (a +:+ b) = match a with "" => first_char b | _ => first_char a end.
Proof. by destruct a. Qed.

Lemma last_char_append a b :
  last_char (a +:+ b)
  = match last_char b with Some d => Some d | None => last_char a end.
Proof.
  induction a as [|x a IH]; [simpl; by destruct (last_char b)|].
  simpl. rewrite IH. by destruct (last_char b).
Qed.

Lemma last_char_none s : last_char s = None -> s = "".
Proof. destruct s; [done|]. simpl. by destruct (last_char s). Qed.

Lemma rdrop_last p s c :
  last_char s = Some c -> p c = false -> Str.rdrop p s = s.
Proof.
  induction s as [|a s IH]; [done|]. simpl. intros Hlast Hc.
  destruct (last_char s) as [d|] eqn:Hs.
  - injection Hlast as ->. rewrite IH by done. by destruct s.
  - injection Hlast as ->. apply last_char_none in Hs as ->. simpl. by rewrite Hc.
Qed.

(** A string that begins and ends with a solid character is left as it
    is by the cleaning of a match. *)
Lemma clean_match_solid m :
  m ≠ "" -> solid_if_any (first_char m) -> solid_if_any (last_char m) ->
  clean_match m = m.
Proof.
  intros Hne Hfirst Hlast. destruct m as [|c m]; [done|].
  destruct (last_char (String c m)) as [d|] eqn:Hd;
    [|by apply last_char_none in Hd].
  simpl in Hfirst, Hlast. unfold solid in *.
  apply andb_true_iff in Hfirst as [Hc _]. apply negb_true_iff in Hc.
  apply andb_true_iff in Hlast as [Hd1 Hd2].
  apply negb_true_iff in Hd1, Hd2.
  unfold clean_match, Str.strip, Str.rstrip. cbn [Str.ldrop]. rewrite Hc.
  rewrite (rdrop_last Char.isspace _ d) by done.
  by rewrite (rdrop_last _ _ d).
Qed.

End Strings.

(** ** Matching *)

Section Matching.

Local Arguments String.append : simpl nomatch.

Lemma exec_sound {A} ic r :
  ∀ s g (k : string -> option string -> option A) a,
    Re.exec ic r s g k = Some a ->
    ∃ w rest g', s = w +:+ rest ∧ matches ic r w ∧ k rest g' = Some a.
Proof.
  induction r as [|d| |neg items|r1 IH1 r2 IH2|r1 IH1 r2 IH2|lo hi r1 IH1|r1 IH1];
    intros s g k a Hexec; simpl in Hexec.
  - exists "", s, g. split; [done|]. split; [constructor | done].
  - destruct s as [|c s]; [done|].
    destruct (Re.lit_eq ic d c) eqn:Hc; [|done].
    exists (String c ""), s, g. split; [done|]. split; [by constructor | done].
  - destruct s as [|c s]; [done|].
    destruct (negb (Ascii.eqb c "010")) eqn:Hc; [|done].
    exists (String c ""), s, g. split; [done|]. split; [by constructor | done].
  - destruct s as [|c s]; [done|].
    destruct (xorb neg (Re.set_has ic items c)) eqn:Hc; [|done].
    exists (String c ""), s, g. split; [done|]. split; [by constructor | done].
  - apply IH1 in Hexec as (w1 & s1 & g1 & -> & Hw1 & Hexec).
    apply IH2 in Hexec as (w2 & s2 & g2 & -> & Hw2 & Hk).
    exists (w1 +:+ w2), s2, g2. rewrite append_assoc.
    split; [done|]. split; [by constructor | done].
  - unfold Re.or_else in Hexec.
    destruct (Re.exec ic r1 s g k) as [a'|] eqn:H1.
    + injection Hexec as ->.
      apply IH1 in H1 as (w & rest & g' & -> & Hw & Hk).
      exists w, rest, g'. split; [done|]. split; [by apply matches_alt_l | done].
    + apply IH2 in Hexec as (w & rest & g' & -> & Hw & Hk).
      exists w, rest, g'. split; [done|]. split; [by apply matches_alt_r | done].
  - revert Hexec.
    generalize (match hi with Some h => h | None => S (String.length s) end).
    intros n. revert lo s g. induction n as [|n IHn]; intros lo s g Hexec.
    + destruct lo; [|done].
      exists "", s, g. split; [done|]. split; [constructor | done].
    + unfold Re.or_else in Hexec.
      match type of Hexec with
      | match ?e with _ => _ end = _ => destruct e as [a'|] eqn:Hmore
      end.
      * injection Hexec as ->.
        apply IH1 in Hmore as (w1 & s1 & g1 & -> & Hw1 & Hrest).
        apply IHn in Hrest as (w2 & s2 & g2 & -> & Hw2 & Hk).
        exists (w1 +:+ w2), s2, g2. rewrite append_assoc.
        split; [done|]. split; [by constructor | done].
      * destruct lo; [|done].
        exists "", s, g. split; [done|]. split; [constructor | done].
  - apply IH1 in Hexec as (w & rest & g' & -> & Hw & Hk).
    exists w, rest, (Some (Re.taken (w +:+ rest) rest)).
    split; [done|]. split; [by constructor | done].
Qed.

Lemma match_at_sound ic r s m g rest :
  Re.match_at ic r s = Some (m, g, rest) -> s = m +:+ rest ∧ matches ic r m.
Proof.
  unfold Re.match_at. intros H.
  apply exec_sound in H as (w & rest' & g' & -> & Hw & H).
  injection H as <- _ <-. by rewrite taken_append.
Qed.

Lemma scan_sound ic r fuel :
  ∀ s m g, (m, g) ∈ Re.scan fuel ic r s -> matches ic r m.
Proof.
  induction fuel as [|fuel IH]; intros s m g Hin; simpl in Hin.
  - by apply elem_of_nil in Hin.
  - destruct (Re.match_at ic r s) as [[[m0 g0] rest]|] eqn:Hm.
    + apply elem_of_cons in Hin as [[= -> ->] | Hin].
      * by apply match_at_sound in Hm as [_ Hm].
      * destruct (Str.is_empty m0); [|by eapply IH].
        destruct s; [by apply elem_of_nil in Hin | by eapply IH].
    + destruct s; [by apply elem_of_nil in Hin | by eapply IH].
Qed.

(** With an expression without group, [findall] reports matches. *)
Lemma findall_re_sound ic r s m :
  Re.groups r = 0%nat -> m ∈ Re.findall_re ic r s -> matches ic r m.
Proof.
  intros Hgroups Hin. unfold Re.findall_re in Hin.
  apply list_elem_of_fmap in Hin as ([m0 g0] & -> & Hin).
  unfold Re.reported. rewrite Hgroups. simpl. by eapply scan_sound.
Qed.

Lemma scan_finds ic r s :
  is_Some (Re.match_at ic r s) ->
  ∀ before fuel, (String.length before < fuel)%nat ->
    Re.scan fuel ic r (before +:+ s) ≠ [].
Proof.
  intros [[[m g] rest] Hm]. induction before as [|c before IH]; intros fuel Hfuel.
  - destruct fuel; [lia|]. simpl. by rewrite Hm.
  - destruct fuel; [simpl in Hfuel; lia|].
    change (String c before +:+ s) with (String c (before +:+ s)).
    cbn [Re.scan].
    destruct (Re.match_at ic r (String c (before +:+ s))) as [[[m0 g0] rest0]|];
      [done|].
    apply IH. simpl in Hfuel. lia.
Qed.

(** A match somewhere in the text makes [findall] report something. *)
Lemma findall_re_finds ic r before s :
  is_Some (Re.match_at ic r s) -> Re.findall_re ic r (before +:+ s) ≠ [].
Proof.
  intros Hm. unfold Re.findall_re.
  pose proof (scan_finds ic r s Hm before
                (S (String.length (before +:+ s)))) as Hscan.
  destruct (Re.scan _ ic r (before +:+ s)); [|done].
  exfalso. apply Hscan; [|done]. rewrite length_append. lia.
Qed.

Lemma solid_lower c : solid (Char.lower c) = solid c.
Proof. by destruct c as [[] [] [] [] [] [] [] []]. Qed.

Lemma solid_upper c : solid (Char.upper c) = solid c.
Proof. by destruct c as [[] [] [] [] [] [] [] []]. Qed.

Lemma isword_solid c : Char.isword c = true -> solid c = true.
Proof. by destruct c as [[] [] [] [] [] [] [] []]. Qed.

Lemma isdigit_solid c : Char.isdigit c = true -> solid c = true.
Proof. by destruct c as [[] [] [] [] [] [] [] []]. Qed.

Lemma item_has_solid i c :
  item_solid i = true -> Re.item_has i c = true -> solid c = true.
Proof.
  destruct i; simpl; intros Hi Hc; try done.
  - by apply Ascii.eqb_eq in Hc as ->.
  - by apply isword_solid.
  - by apply isdigit_solid.
Qed.

Lemma step_solid ic r c :
  char_solid r = true -> Re.step ic r c = true -> solid c = true.
Proof.
  destruct r as [|d| |neg items| | | |]; simpl; try done.
  - intros Hd Hc. unfold Re.lit_eq in Hc. destruct ic.
    + apply Ascii.eqb_eq in Hc.
      by rewrite <- solid_lower, <- Hc, solid_lower.
    + by apply Ascii.eqb_eq in Hc as <-.
  - intros Hset Hc. apply andb_true_iff in Hset as [Hneg Hitems].
    apply negb_true_iff in Hneg as ->. simpl in Hc.
    unfold Re.set_has in Hc. apply existsb_exists in Hc as (i & Hi & Hc).
    rewrite forallb_forall in Hitems. specialize (Hitems i Hi).
    apply orb_true_iff in Hc as [Hc | Hc]; [by eapply item_has_solid|].
    apply andb_true_iff in Hc as [_ Hc].
    apply orb_true_iff in Hc as [Hc | Hc].
    + rewrite <- solid_lower. by eapply item_has_solid.
    + rewrite <- solid_upper. by eapply item_has_solid.
Qed.

Lemma matches_shape ic r w :
  matches ic r w ->
  (w = "" -> may_be_empty r = true)
  ∧ (min_len r <= String.length w)%nat
  ∧ (starts_solid r = true -> solid_if_any (first_char w))
  ∧ (ends_solid r = true -> solid_if_any (last_char w)).
Proof.
  induction 1 as [|r c Hc|r1 r2 w1 w2 _ IH1 _ IH2|r1 r2 w _ IH|r1 r2 w _ IH
                  |hi r|lo hi r w1 w2 _ IH1 _ IH2|r w _ IH].
  - done.
  - assert (char_solid r = true -> solid c = true) as Hsolid
      by (intros; by eapply step_solid).
    destruct r; try done; simpl; (split; [done|]); (split; [lia|]); done.
  - destruct IH1 as (He1 & Hl1 & Hf1 & Hb1), IH2 as (He2 & Hl2 & Hf2 & Hb2).
    simpl. split; [|split; [|split]].
    + intros [-> ->]%append_empty. by rewrite He1, He2.
    + rewrite length_append. lia.
    + intros [H1 H2]%andb_true_iff. rewrite first_char_append.
      destruct w1 as [|c w1]; [|by apply Hf1].
      rewrite He1 in H2 by done. simpl in H2. by apply Hf2.
    + intros [H2 H1]%andb_true_iff. rewrite last_char_append.
      destruct (last_char w2) as [d|] eqn:Hd; [by apply Hb2|].
      apply last_char_none in Hd. rewrite He2 in H1 by done. by apply Hb1.
  - destruct IH as (He & Hl & Hf & Hb). simpl. split; [|split; [|split]].
    + intros Hw. by rewrite He.
    + lia.
    + by intros [H1 _]%andb_true_iff; apply Hf.
    + by intros [H1 _]%andb_true_iff; apply Hb.
  - destruct IH as (He & Hl & Hf & Hb). simpl. split; [|split; [|split]].
    + intros Hw. rewrite He by done. by rewrite orb_true_r.
    + lia.
    + by intros [_ H2]%andb_true_iff; apply Hf.
    + by intros [_ H2]%andb_true_iff; apply Hb.
  - done.
  - destruct IH1 as (He1 & Hl1 & Hf1 & Hb1), IH2 as (He2 & Hl2 & Hf2 & Hb2).
    simpl in *. split; [|split; [|split]].
    + intros [-> ->]%append_empty. rewrite He1 by done. by rewrite orb_true_r.
    + rewrite length_append. destruct lo; simpl in *; lia.
    + intros Hs. rewrite first_char_append.
      destruct w1 as [|c w1]; [by apply Hf2 | by apply Hf1].
    + intros Hs. rewrite last_char_append.
      destruct (last_char w2) as [d|] eqn:Hd; [by apply Hb2 | by apply Hb1].
  - done.
Qed.

(** A match of an expression whose matches are long enough and have solid
    ends passes the test of [_extract_pattern_matches]. *)
Lemma solid_match_is_kept ic r m :
  (5 < min_len r)%nat -> starts_solid r = true -> ends_solid r = true ->
  matches ic r m -> (5 < Str.len (clean_match m))%Z.
Proof.
  intros Hmin Hstart Hend Hm.
  destruct (matches_shape ic r m Hm) as (_ & Hlen & Hf & Hb).
  rewrite clean_match_solid; [unfold Str.len; lia| |by apply Hf|by apply Hb].
  intros ->. simpl in Hlen. lia.
Qed.

End Matching.

(** ** The scenario of the two phrases *)

Section Scenario.

Lemma add_matches_keeps found matches :
  matches ≠ [] -> add_matches found matches ≠ [].
Proof.
  revert matches. induction found as [|m rest IH]; intros matches Hne; [done|].
  simpl. destruct (_ && _); [|by apply IH].
  case_bool_decide; [by destruct matches | apply IH; by destruct matches].
Qed.

Lemma add_matches_nonempty found matches m :
  m ∈ found -> (5 < Str.len (clean_match m))%Z ->
  add_matches found matches ≠ [].
Proof.
  revert matches. induction found as [|m0 rest IH]; intros matches Hin Hlong.
  - by apply elem_of_nil in Hin.
  - destruct matches as [|x matches]; [|by apply add_matches_keeps].
    apply elem_of_cons in Hin as [<- | Hin].
    + cbn [add_matches]. rewrite (bool_decide_eq_true_2 (5 < _)%Z) by done.
      rewrite (bool_decide_eq_true_2 (_ ∉ _)) by apply not_elem_of_nil.
      cbn [andb]. destruct (bool_decide _); [done | by apply add_matches_keeps].
    + cbn [add_matches]. destruct (_ && _); [|by apply IH].
      destruct (bool_decide _); [done | by apply add_matches_keeps].
Qed.

Lemma pattern_loop_keeps content patterns matches :
  matches ≠ [] -> pattern_loop content patterns matches ≠ [].
Proof.
  revert matches. induction patterns as [|p rest IH]; intros matches Hne;
    [done|].
  simpl. destruct (Re.findall p content true); apply IH; [|done].
  by apply add_matches_keeps.
Qed.

(** A table whose first pattern has only matches that pass the test
    yields an entry as soon as that pattern matches somewhere. *)
Lemma extract_pattern_matches_nonempty r pattern patterns category before s :
  Re.compile pattern = Some r ->
  Re.groups r = 0%nat ->
  (5 < min_len r)%nat -> starts_solid r = true -> ends_solid r = true ->
  is_Some (Re.match_at true r s) ->
  (1 <= length (_extract_pattern_matches (before +:+ s) (pattern :: patterns)
                  category))%nat.
Proof.
  intros Hcompile Hgroups Hmin Hstart Hend Hmatch.
  unfold _extract_pattern_matches. cbn [pattern_loop].
  unfold Re.findall. rewrite Hcompile. simpl.
  pose proof (findall_re_finds true r before s Hmatch) as Hfound.
  destruct (Re.findall_re true r (before +:+ s)) as [|m found] eqn:Hfind;
    [done|].
  assert (matches true r m) as Hm.
  { apply (findall_re_sound true r (before +:+ s)); [done|].
    rewrite Hfind. apply list_elem_of_here. }
  pose proof (pattern_loop_keeps (before +:+ s) patterns
                (add_matches (m :: found) [])) as Hloop.
  destruct (pattern_loop (before +:+ s) patterns (add_matches (m :: found) []));
    [|simpl; lia].
  exfalso. apply Hloop; [|done].
  apply (add_matches_nonempty _ _ m); [apply list_elem_of_here|].
  by eapply solid_match_is_kept.
Qed.

Lemma growth_hiring_matches rest :
  is_Some (Re.match_at true growth_hiring
             ("expanding our engineering team" +:+ rest)).
Proof. vm_compute. by eexists. Qed.

Lemma urgency_need_matches rest :
  is_Some (Re.match_at true urgency_need
             ("urgent need for new servers" +:+ rest)).
Proof. vm_compute. by eexists. Qed.

Lemma expanding_team_gives_growth_indicator content :
  Str.contains "we are expanding our engineering team" content = true ->
  (1 <= length (_extract_pattern_matches (Str.lower content) growth_patterns
                  "Growth Indicators"))%nat.
Proof.
  intros (before & after & ->)%contains_append.
  rewrite !lower_append.
  change (Str.lower "we are expanding our engineering team")
    with ("we are " +:+ "expanding our engineering team").
  rewrite (append_assoc "we are "), <- (append_assoc (Str.lower before)).
  apply (extract_pattern_matches_nonempty growth_hiring);
    first [apply growth_hiring_matches | done | (vm_compute; lia)].
Qed.

Lemma urgent_need_gives_urgency_signal content :
  Str.contains "urgent need for new servers" content = true ->
  (1 <= length (_extract_pattern_matches (Str.lower content) urgency_patterns
                  "Urgency Signals"))%nat.
Proof.
  intros (before & after & ->)%contains_append.
  rewrite !lower_append.
  change (Str.lower "urgent need for new servers")
    with ("urgent need for new servers").
  apply (extract_pattern_matches_nonempty urgency_need);
    first [apply urgency_need_matches | done | (vm_compute; lia)].
Qed.

End Scenario.

(** C4.  A text that contains "we are expanding our engineering team" and
    "urgent need for new servers" gives a profile with at least one growth
    indicator and at least one urgency signal, and a readiness score of at
    least 23. *)
Theorem expansion_and_urgency_score_at_least_23 :
  ∀ (company : Company) (i : Intelligence) (text : string),
    Str.contains "we are expanding our engineering team" text = true ->
    Str.contains "urgent need for new servers" text = true ->
    ∃ profile score,
      _extract_hardware_intelligence
        (<["hardware_intelligence" := VIntel i]> company) text
      = inr (<["hardware_intelligence" := VIntel profile]> company)
      ∧ (1 <= length (growth_indicators profile))%nat
      ∧ (1 <= length (urgency_signals profile))%nat
      ∧ _calculate_hardware_readiness_score
          (<["hardware_intelligence" := VIntel profile]> company) = inr score
      ∧ (23 <= score)%Z.
Proof.
  intros company i text Hgrowth Hurgency.
  pose proof (expanding_team_gives_growth_indicator text Hgrowth) as Hg.
  pose proof (urgent_need_gives_urgency_signal text Hurgency) as Hu.
  eexists _, _. split; [apply extract_hardware_intelligence_profile|].
  split; [exact Hg|]. split; [exact Hu|]. split.
  - unfold _calculate_hardware_readiness_score, get_intelligence.
    by rewrite lookup_insert_eq.
  - rewrite readiness_score_weighted_sum. unfold weighted_sum, len.
    cbn [growth_indicators urgency_signals add_context add_signals].
    lia.
Qed.

Lemma expansion_and_urgency_score_at_least_23_witness :
  ∃ profile score,
    _extract_hardware_intelligence
      (<["hardware_intelligence" := VIntel (blank_intelligence None)]> sample_company)
      "Today we are expanding our engineering team; there is an urgent need for new servers."
    = inr (<["hardware_intelligence" := VIntel profile]> sample_company)
    ∧ (1 <= length (growth_indicators profile))%nat
    ∧ (1 <= length (urgency_signals profile))%nat
    ∧ _calculate_hardware_readiness_score
        (<["hardware_intelligence" := VIntel profile]> sample_company) = inr score
    ∧ (23 <= score)%Z.
Proof.
  apply (expansion_and_urgency_score_at_least_23 sample_company
           (blank_intelligence None)
           "Today we are expanding our engineering team; there is an urgent need for new servers.").
  - reflexivity.
  - reflexivity.
Defined.
Section Captures.

Local Arguments String.append : simpl nomatch.

Lemma in_all_chars c : In c all_chars.
Proof.
  unfold all_chars. rewrite <- (ascii_nat_embedding c).
  apply in_map, in_seq. pose proof (nat_ascii_bounded c). lia.
Qed.

Lemma matches_chars ic p r w :
  chars_within ic p r = true -> matches ic r w -> every p w = true.
Proof.
  intros Hr Hm. induction Hm as [|r c Hc|r1 r2 w1 w2 _ IH1 _ IH2|r1 r2 w _ IH
    |r1 r2 w _ IH|hi r|lo hi r w1 w2 _ IH1 _ IH2|r w _ IH]; simpl in Hr.
  - done.
  - assert (forallb (fun c => implb (Re.step ic r c) (p c)) all_chars = true)
      as Hall by (destruct r; try done; by simpl in Hc).
    rewrite forallb_forall in Hall. specialize (Hall c (in_all_chars c)).
    rewrite Hc in Hall. simpl in *. by rewrite Hall.
  - apply andb_true_iff in Hr as [H1 H2].
    specialize (IH1 H1). specialize (IH2 H2). clear - IH1 IH2.
    induction w1 as [|c w1 IH]; [done|]. simpl in *.
    apply andb_true_iff in IH1 as [-> Hw1]. by apply IH.
  - apply andb_true_iff in Hr as [H1 H2]. by apply IH.
  - apply andb_true_iff in Hr as [H1 H2]. by apply IH.
  - done.
  - specialize (IH1 Hr). specialize (IH2 Hr). clear - IH1 IH2.
    induction w1 as [|c w1 IH]; [done|]. simpl in *.
    apply andb_true_iff in IH1 as [-> Hw1]. by apply IH.
  - by apply IH.
Qed.

Lemma captured_seq ic r1 r2 g g1 g2 :
  captured ic r1 g g1 -> captured ic r2 g1 g2 -> captured ic (Re.Seq r1 r2) g g2.
Proof.
  intros H1 [(r & w & Hr & Hw & ->) | [Hs2 ->]].
  - left. exists r, w. split; [|done]. simpl. apply elem_of_app. by right.
  - destruct H1 as [(r & w & Hr & Hw & ->) | [Hs1 ->]].
    + left. exists r, w. split; [|done]. simpl. apply elem_of_app. by left.
    + right. simpl. by rewrite Hs1, Hs2.
Qed.

Lemma captured_rep ic lo hi r1 g g1 g2 :
  captured ic r1 g g1 -> captured ic (Re.Rep (Nat.pred lo) hi r1) g1 g2 ->
  captured ic (Re.Rep lo hi r1) g g2.
Proof.
  intros H1 [(r & w & Hr & Hw & ->) | [Hs2 ->]].
  - left. by exists r, w.
  - destruct H1 as [(r & w & Hr & Hw & ->) | [Hs1 ->]].
    + left. by exists r, w.
    + right. simpl. by rewrite Hs1, andb_false_r.
Qed.

Lemma exec_captured {A} ic r :
  ∀ s g (k : string -> option string -> option A) a,
    Re.exec ic r s g k = Some a ->
    ∃ w rest g',
      s = w +:+ rest ∧ matches ic r w ∧ captured ic r g g' ∧ k rest g' = Some a.
Proof.
  induction r as [|d| |neg items|r1 IH1 r2 IH2|r1 IH1 r2 IH2|lo hi r1 IH1|r1 IH1];
    intros s g k a Hexec; simpl in Hexec.
  - exists "", s, g. repeat split; [constructor | by right | done].
  - destruct s as [|c s]; [done|].
    destruct (Re.lit_eq ic d c) eqn:Hc; [|done].
    exists (String c ""), s, g. repeat split; [by constructor | by right | done].
  - destruct s as [|c s]; [done|].
    destruct (negb (Ascii.eqb c "010")) eqn:Hc; [|done].
    exists (String c ""), s, g. repeat split; [by constructor | by right | done].
  - destruct s as [|c s]; [done|].
    destruct (xorb neg (Re.set_has ic items c)) eqn:Hc; [|done].
    exists (String c ""), s, g. repeat split; [by constructor | by right | done].
  - apply IH1 in Hexec as (w1 & s1 & g1 & -> & Hw1 & Hg1 & Hexec).
    apply IH2 in Hexec as (w2 & s2 & g2 & -> & Hw2 & Hg2 & Hk).
    exists (w1 +:+ w2), s2, g2. rewrite append_assoc.
    repeat split; [by constructor | by eapply captured_seq | done].
  - unfold Re.or_else in Hexec.
    destruct (Re.exec ic r1 s g k) as [a'|] eqn:H1.
    + injection Hexec as ->.
      apply IH1 in H1 as (w & rest & g' & -> & Hw & Hg & Hk).
      exists w, rest, g'. repeat split; [by apply matches_alt_l | | done].
      destruct Hg as [(r & w' & Hr & Hw' & ->) | [Hs ->]].
      * left. exists r, w'. split; [|done]. simpl. apply elem_of_app. by left.
      * right. simpl. by rewrite Hs.
    + apply IH2 in Hexec as (w & rest & g' & -> & Hw & Hg & Hk).
      exists w, rest, g'. repeat split; [by apply matches_alt_r | | done].
      destruct Hg as [(r & w' & Hr & Hw' & ->) | [Hs ->]].
      * left. exists r, w'. split; [|done]. simpl. apply elem_of_app. by right.
      * right. simpl. by rewrite Hs, andb_false_r.
  - revert Hexec.
    generalize (match hi with Some h => h | None => S (String.length s) end).
    intros n. revert lo s g. induction n as [|n IHn]; intros lo s g Hexec.
    + destruct lo; [|done].
      exists "", s, g. repeat split; [constructor | by right | done].
    + unfold Re.or_else in Hexec.
      match type of Hexec with
      | match ?e with _ => _ end = _ => destruct e as [a'|] eqn:Hmore
      end.
      * injection Hexec as ->.
        apply IH1 in Hmore as (w1 & s1 & g1 & -> & Hw1 & Hg1 & Hrest).
        apply IHn in Hrest as (w2 & s2 & g2 & -> & Hw2 & Hg2 & Hk).
        exists (w1 +:+ w2), s2, g2. rewrite append_assoc.
        repeat split; [by constructor | by eapply captured_rep | done].
      * destruct lo; [|done].
        exists "", s, g. repeat split; [constructor | by right | done].
  - apply IH1 in Hexec as (w & rest & g' & -> & Hw & Hg & Hk).
    exists w, rest, (Some (Re.taken (w +:+ rest) rest)).
    repeat split; [by constructor | | done].
    left. exists r1, w. rewrite taken_append.
    split; [apply list_elem_of_here | done].
Qed.

Lemma match_at_captured ic r s m g rest :
  Re.match_at ic r s = Some (m, g, rest) ->
  s = m +:+ rest ∧ matches ic r m ∧ captured ic r None g.
Proof.
  unfold Re.match_at. intros H.
  apply exec_captured in H as (w & rest' & g' & -> & Hw & Hg & H).
  injection H as <- <- <-. by rewrite taken_append.
Qed.

(** What [scan] finds: a match of the expression, with the group text that
    goes with it, at some place of the text. *)
Lemma scan_elements ic r fuel :
  ∀ s m g, (m, g) ∈ Re.scan fuel ic r s ->
    matches ic r m ∧ captured ic r None g
    ∧ ∃ before after, s = before +:+ m +:+ after.
Proof.
  induction fuel as [|fuel IH]; intros s m g Hin; simpl in Hin.
  - by apply elem_of_nil in Hin.
  - assert (∀ c s', s = String c s' -> (m, g) ∈ Re.scan fuel ic r s' ->
      matches ic r m ∧ captured ic r None g
      ∧ ∃ before after, s = before +:+ m +:+ after) as Hskip.
    { intros c s' -> Hin'.
      destruct (IH _ _ _ Hin') as (Hm & Hg & before & after & ->).
      split; [done|]. split; [done|]. by exists (String c before), after. }
    destruct (Re.match_at ic r s) as [[[m0 g0] rest]|] eqn:Hm.
    + apply match_at_captured in Hm as (-> & Hm0 & Hg0).
      apply elem_of_cons in Hin as [[= -> ->] | Hin].
      * split; [done|]. split; [done|]. by exists "", rest.
      * destruct (Str.is_empty m0).
        -- destruct (m0 +:+ rest) as [|c s'] eqn:Hs;
             [by apply elem_of_nil in Hin|].
           rewrite <- Hs in Hskip. rewrite <- Hs. by eapply Hskip.
        -- destruct (IH _ _ _ Hin) as (Hm & Hg & before & after & ->).
           split; [done|]. split; [done|].
           exists (m0 +:+ before), after. by rewrite append_assoc.
    + destruct s as [|c s']; [by apply elem_of_nil in Hin|]. by eapply Hskip.
Qed.

End Captures.

(** ** Budget indicators *)

Section Budget.

Local Arguments String.append : simpl nomatch.

Lemma findall_re_amounts r s x :
  captures_amount r -> x ∈ Re.findall_re true r s ->
  x ≠ "" ∧ every amount_char x = true.
Proof.
  intros (Hgroups & Hsets & Hall) Hin. unfold Re.findall_re in Hin.
  apply list_elem_of_fmap in Hin as ([m g] & -> & Hin).
  apply scan_elements in Hin as (_ & Hg & _).
  unfold Re.reported. destruct (Re.groups r); [lia|]. simpl.
  destruct Hg as [(r1 & w & Hr1 & Hw & ->) | [Hno _]]; [|congruence].
  rewrite Forall_forall in Hall. destruct (Hall r1 Hr1) as [Hchars Hmin].
  simpl. split; [|by eapply matches_chars].
  intros ->. apply matches_shape in Hw as (_ & Hlen & _). simpl in Hlen. lia.
Qed.

Lemma add_indicators_are_indicators found indicators :
  Forall (fun x => x ≠ "" ∧ every amount_char x = true) found ->
  Forall is_indicator indicators ->
  Forall is_indicator (add_indicators found indicators).
Proof.
  intros Hfound. revert indicators.
  induction Hfound as [|m rest [Hne Hm] _ IH]; intros indicators Hall; [done|].
  simpl.
  assert (Forall is_indicator (indicators ++ ["Financial indicator: $" +:+ m]))
    as Hall'.
  { apply Forall_app. split; [done|]. apply Forall_singleton. by exists m. }
  case_bool_decide; [done | by apply IH].
Qed.

Lemma add_indicators_length found indicators :
  (length (add_indicators found indicators)
   <= Nat.max 3 (S (length indicators)))%nat.
Proof.
  revert indicators. induction found as [|m rest IH]; intros indicators;
    [simpl; lia|].
  simpl. case_bool_decide as Hfull.
  - rewrite length_app. simpl. lia.
  - rewrite length_app in Hfull. simpl in Hfull.
    etrans; [apply IH|]. rewrite length_app. simpl. lia.
Qed.

Lemma budget_loop_length content regexes indicators :
  (length (budget_loop content regexes indicators)
   <= Nat.max (length indicators) 2 + length regexes)%nat.
Proof.
  revert indicators. induction regexes as [|r rest IH]; intros indicators;
    [simpl; lia|].
  simpl. etrans; [apply IH|].
  pose proof (add_indicators_length (Re.findall_re true r content) indicators).
  lia.
Qed.

Lemma budget_loop_indicators content regexes indicators :
  Forall captures_amount regexes ->
  Forall is_indicator indicators ->
  Forall is_indicator (budget_loop content regexes indicators).
Proof.
  intros Hregexes. revert indicators.
  induction Hregexes as [|r rest Hr _ IH]; intros indicators Hall; [done|].
  simpl. apply IH. apply add_indicators_are_indicators; [|done].
  apply Forall_forall. intros x Hx. by eapply findall_re_amounts.
Qed.

Lemma budget_regexes_capture_amounts : Forall captures_amount budget_regexes.
Proof.
  unfold budget_regexes.
  repeat (apply Forall_cons; split;
          [split; [vm_compute; lia|]; split; [by vm_compute|];
           repeat (apply Forall_cons; split; [split; [by vm_compute|vm_compute; lia]|]);
           apply Forall_nil_2|]).
  apply Forall_nil_2.
Qed.

End Budget.

(** X1.  Whatever the text, the budget indicators are at most seven, and
    each is [Financial indicator: $] followed by a non-empty amount written
    with digits, commas and periods. *)
Theorem budget_indicators_at_most_seven_amounts :
  ∀ content : string,
    (length (_extract_budget_indicators content) <= 7)%nat
    ∧ ∀ x, x ∈ _extract_budget_indicators content -> is_indicator x.
Proof.
  intros content. unfold _extract_budget_indicators. split.
  - pose proof (budget_loop_length content budget_regexes []) as H.
    simpl in H. exact H.
  - apply Forall_forall, budget_loop_indicators;
      [apply budget_regexes_capture_amounts | apply Forall_nil_2].
Qed.

(** The bound of seven is reached. *)
Example budget_indicators_seven :
  length (_extract_budget_indicators
            "budget of $1 budget of $2 budget of $3 revenue of $4 funding of $5 raised $6")
  = 7%nat.
Proof. by vm_compute. Qed.

(** ** Where the entries come from *)

Section Provenance.

Local Arguments String.append : simpl nomatch.

Lemma startswith_intro m b : Str.startswith m (m +:+ b) = true.
Proof.
  induction m as [|c m IH]; [done|]. simpl.
  by rewrite Ascii.eqb_refl, IH.
Qed.

Lemma contains_intro a m b : Str.contains m (a +:+ m +:+ b) = true.
Proof.
  induction a as [|c a IH].
  - simpl. destruct (m +:+ b) eqn:Hmb; cbn [Str.contains];
      rewrite <- Hmb, startswith_intro; done.
  - change (String c a +:+ m +:+ b) with (String c (a +:+ m +:+ b)).
    cbn [Str.contains]. by rewrite IH, orb_true_r.
Qed.

Lemma ldrop_within p s : ∃ a, s = a +:+ Str.ldrop p s.
Proof.
  induction s as [|c s [a IH]]; [by exists ""|]. simpl.
  destruct (p c); [|by exists ""].
  exists (String c a). simpl. by rewrite <- IH.
Qed.

Lemma rdrop_within p s : ∃ b, s = Str.rdrop p s +:+ b.
Proof.
  induction s as [|c s [b IH]]; [by exists ""|]. simpl.
  destruct (Str.is_empty (Str.rdrop p s) && p c); [by exists (String c s)|].
  exists b. simpl. by rewrite <- IH.
Qed.

Lemma clean_match_within m : ∃ a b, m = a +:+ clean_match m +:+ b.
Proof.
  unfold clean_match, Str.strip, Str.rstrip.
  destruct (ldrop_within Char.isspace m) as [a Ha].
  destruct (rdrop_within Char.isspace (Str.ldrop Char.isspace m)) as [b1 Hb1].
  destruct (rdrop_within (fun c => Str.mem c ".,!?:;")
              (Str.rdrop Char.isspace (Str.ldrop Char.isspace m))) as [b2 Hb2].
  exists a, (b2 +:+ b1).
  rewrite <- (append_assoc _ b2 b1), <- Hb2, <- Hb1. exact Ha.
Qed.

Lemma add_matches_within content found matches :
  Forall (fun m => ∃ a b, content = a +:+ m +:+ b) found ->
  Forall (fun x => Str.contains x content = true) matches ->
  Forall (fun x => Str.contains x content = true) (add_matches found matches).
Proof.
  intros Hfound. revert matches.
  induction Hfound as [|m rest (a & b & Hm) _ IH]; intros matches Hall; [done|].
  simpl. destruct (_ && _); [|by apply IH].
  assert (Forall (fun x => Str.contains x content = true)
                 (matches ++ [clean_match m])) as Hall'.
  { apply Forall_app. split; [done|]. apply Forall_singleton.
    destruct (clean_match_within m) as (a' & b' & Hc).
    remember (clean_match m) as c eqn:Hcm. clear Hcm IH. subst m content.
    rewrite !append_assoc, <- (append_assoc a a').
    apply contains_intro. }
  case_bool_decide; [done | by apply IH].
Qed.

Lemma pattern_loop_within content patterns matches :
  Forall groupless patterns ->
  Forall (fun x => Str.contains x content = true) matches ->
  Forall (fun x => Str.contains x content = true)
         (pattern_loop content patterns matches).
Proof.
  intros Hpatterns. revert matches.
  induction Hpatterns as [|p rest Hp _ IH]; intros matches Hall; [done|].
  simpl. unfold Re.findall. destruct (Re.compile p) as [r|] eqn:Hr; simpl;
    [|by apply IH].
  apply IH. apply add_matches_within; [|done].
  apply Forall_forall. intros x Hx. unfold Re.findall_re in Hx.
  apply list_elem_of_fmap in Hx as ([m g] & -> & Hin).
  apply scan_elements in Hin as (_ & _ & Hsub).
  unfold Re.reported. by rewrite (Hp r Hr).
Qed.

Lemma extract_pattern_matches_within content patterns category x :
  Forall groupless patterns ->
  x ∈ _extract_pattern_matches content patterns category ->
  Str.contains x content = true.
Proof.
  intros Hpatterns Hx. unfold _extract_pattern_matches in Hx.
  pose proof (pattern_loop_within content patterns [] Hpatterns (Forall_nil_2 _))
    as Hall.
  rewrite Forall_forall in Hall. apply Hall.
  eapply elem_of_sublist; [exact Hx | apply sublist_take].
Qed.

Ltac groupless_table :=
  repeat (apply Forall_cons; split;
          [intros r Hr; vm_compute in Hr; injection Hr as <-; reflexivity|]);
  apply Forall_nil_2.

Lemma pattern_tables_groupless :
  Forall groupless infrastructure_patterns ∧ Forall groupless growth_patterns
  ∧ Forall groupless pain_point_patterns ∧ Forall groupless decision_maker_patterns
  ∧ Forall groupless tech_infrastructure_patterns
  ∧ Forall groupless hardware_needs_patterns ∧ Forall groupless urgency_patterns
  ∧ Forall groupless company_scale_patterns.
Proof. repeat split; groupless_table. Qed.

End Provenance.

(** X2.  Every entry of the eight pattern lists occurs in the lower-cased
    text. *)
Theorem pattern_entries_occur_in_text :
  ∀ (company : Company) (i : Intelligence) (text : string),
    ∃ profile,
      _extract_hardware_intelligence
        (<["hardware_intelligence" := VIntel i]> company) text
      = inr (<["hardware_intelligence" := VIntel profile]> company)
      ∧ ∀ l x, l ∈ pattern_categories profile -> x ∈ l ->
               Str.contains x (Str.lower text) = true.
Proof.
  intros company i text. eexists. split.
  - apply extract_hardware_intelligence_profile.
  - destruct pattern_tables_groupless
      as (H1 & H2 & H3 & H4 & H5 & H6 & H7 & H8).
    intros l x Hl Hx. unfold pattern_categories in Hl. simpl in Hl.
    repeat (apply elem_of_cons in Hl as [-> | Hl];
            [eapply extract_pattern_matches_within; [|exact Hx]; assumption|]).
    by apply elem_of_nil in Hl.
Qed.

(** ** Business and industry context *)

Section Context.

Lemma add_phrases_length found business_phrases :
  (length (add_phrases found business_phrases)
   <= Nat.max 2 (S (length business_phrases)))%nat.
Proof.
  revert business_phrases.
  induction found as [|m rest IH]; intros business_phrases; [simpl; lia|].
  cbn [add_phrases]. cbv zeta.
  set (phrases' := if bool_decide (10 < Str.len (clean_match m))%Z
                   then business_phrases ++ [clean_match m]
                   else business_phrases).
  assert (length phrases' <= S (length business_phrases))%nat as Hlen
    by (subst phrases'; case_bool_decide; rewrite ?length_app; simpl; lia).
  case_bool_decide as Hfull; [lia|]. etrans; [apply IH|]. lia.
Qed.

Lemma phrase_loop_length content regexes business_phrases :
  (length (phrase_loop content regexes business_phrases)
   <= Nat.max (length business_phrases) 1 + length regexes)%nat.
Proof.
  revert business_phrases.
  induction regexes as [|r rest IH]; intros business_phrases; [simpl; lia|].
  simpl. etrans; [apply IH|].
  pose proof (add_phrases_length (Re.findall_re true r content) business_phrases).
  lia.
Qed.

Lemma add_phrases_long found business_phrases :
  Forall (fun x => 10 < Str.len x)%Z business_phrases ->
  Forall (fun x => 10 < Str.len x)%Z (add_phrases found business_phrases).
Proof.
  revert business_phrases.
  induction found as [|m rest IH]; intros business_phrases Hall; [done|].
  cbn [add_phrases]. cbv zeta.
  set (phrases' := if bool_decide (10 < Str.len (clean_match m))%Z
                   then business_phrases ++ [clean_match m]
                   else business_phrases).
  assert (Forall (fun x => 10 < Str.len x)%Z phrases') as Hall'.
  { subst phrases'. case_bool_decide; [|done].
    apply Forall_app. split; [done | by apply Forall_singleton]. }
  case_bool_decide; [done | by apply IH].
Qed.

Lemma phrase_loop_long content regexes business_phrases :
  Forall (fun x => 10 < Str.len x)%Z business_phrases ->
  Forall (fun x => 10 < Str.len x)%Z
         (phrase_loop content regexes business_phrases).
Proof.
  revert business_phrases.
  induction regexes as [|r rest IH]; intros business_phrases Hall; [done|].
  simpl. by apply IH, add_phrases_long.
Qed.

Lemma detect_industries_sublist content :
  detect_industries content `sublist_of` industry_tags.
Proof.
  change industry_tags with (map fst industry_keywords).
  unfold detect_industries.
  induction industry_keywords as [|[industry keywords] rest IH]; [done|].
  cbn [omap list_omap map fst].
  destruct (existsb _ keywords); [by apply sublist_skip | by apply sublist_cons].
Qed.

Lemma detect_industries_tag content tag keywords :
  (tag, keywords) ∈ industry_keywords ->
  tag ∈ detect_industries content
  ↔ ∃ keyword, keyword ∈ keywords ∧ Str.contains keyword content = true.
Proof.
  intros Hin.
  assert (tag ∈ detect_industries content
          ↔ existsb (fun keyword => Str.contains keyword content) keywords = true)
    as ->.
  { unfold detect_industries. rewrite list_elem_of_omap. split.
    - intros ([tag' keywords'] & Hin' & Hsome).
      destruct (existsb _ keywords') eqn:Hex; [|done].
      injection Hsome as ->.
      unfold industry_keywords in Hin, Hin'.
      repeat (apply elem_of_cons in Hin as [Hin | Hin]; [|]);
        try (by apply elem_of_nil in Hin);
        repeat (apply elem_of_cons in Hin' as [Hin' | Hin']; [|]);
        try (by apply elem_of_nil in Hin'); by simplify_eq.
    - intros Hex. exists (tag, keywords). by rewrite Hex. }
  rewrite existsb_exists. split.
  - intros (k & Hk & Hc). exists k. by rewrite list_elem_of_In.
  - intros (k & Hk & Hc). exists k. by rewrite <- list_elem_of_In.
Qed.

End Context.

(** X3.  After the extraction the profile has both context entries: at
    most five business phrases, each longer than 10 characters, and the
    industry tags, which follow the order of the table without repetition;
    a tag is there exactly when one of its keywords occurs in the
    lower-cased text. *)
Theorem context_entries_bounded :
  ∀ (company : Company) (i : Intelligence) (text : string),
    ∃ profile phrases tags,
      _extract_hardware_intelligence
        (<["hardware_intelligence" := VIntel i]> company) text
      = inr (<["hardware_intelligence" := VIntel profile]> company)
      ∧ business_context profile = Some phrases
      ∧ industry_context profile = Some tags
      ∧ (length phrases <= 5)%nat
      ∧ (∀ x, x ∈ phrases -> (10 < Str.len x)%Z)
      ∧ tags `sublist_of` industry_tags
      ∧ ∀ tag keywords, (tag, keywords) ∈ industry_keywords ->
          (tag ∈ tags
           ↔ ∃ keyword, keyword ∈ keywords
                        ∧ Str.contains keyword (Str.lower text) = true).
Proof.
  intros company i text. eexists _, _, _. split.
  - apply extract_hardware_intelligence_profile.
  - split; [reflexivity|]. split; [reflexivity|]. split; [|split; [|split]].
    + pose proof (phrase_loop_length (Str.lower text) phrase_regexes []) as H.
      simpl in H. exact H.
    + apply Forall_forall, phrase_loop_long, Forall_nil_2.
    + apply detect_industries_sublist.
    + intros tag keywords. apply detect_industries_tag.
Qed.

(** ** The words of a cleaned text *)

Section CleanWords.

Local Arguments String.append : simpl nomatch.

Lemma permitted_step c :
  Re.step false special_character c = negb (permitted c || Char.isspace c).
Proof. by destruct c as [[] [] [] [] [] [] [] []]. Qed.

Lemma sub_special_chars fuel :
  ∀ s, (String.length s < fuel)%nat ->
    every (fun c => permitted c || Char.isspace c)
          (Re.sub_from fuel false special_character " " s) = true.
Proof.
  induction fuel as [|fuel IH]; intros s Hfuel; [lia|].
  destruct s as [|c s]; [done|].
  cbn [Re.sub_from]. unfold Re.match_at.
  change (Re.exec false special_character (String c s) None
            (fun rest g => Some (Re.taken (String c s) rest, g, rest)))
    with (if Re.step false special_character c
          then Some (Re.taken (String c s) s, None (A:=string), s) else None).
  change (String c s) with (String c "" +:+ s) at 1. rewrite taken_append.
  rewrite permitted_step. simpl in Hfuel.
  destruct (permitted c || Char.isspace c) eqn:Hc; simpl.
  - rewrite Hc. apply IH. lia.
  - apply IH. lia.
Qed.

Lemma split_every p s :
  every p s = true -> Forall (fun w => every p w = true) (Str.split s).
Proof.
  induction s as [|c s IH]; [constructor|]. simpl. intros H.
  apply andb_true_iff in H as [Hc Hs]. specialize (IH Hs).
  destruct (Char.isspace c); [done|].
  destruct s as [|c' s']; [constructor; [simpl; by rewrite Hc | done]|].
  destruct (Char.isspace c'); [constructor; [simpl; by rewrite Hc | done]|].
  destruct (Str.split (String c' s')) as [|w ws];
    [constructor; [simpl; by rewrite Hc | done]|].
  inversion IH; subst. constructor; [simpl; by rewrite Hc | done].
Qed.

Lemma drop_repeats_subseteq prev words w :
  w ∈ drop_repeats prev words -> w ∈ words.
Proof.
  revert prev. induction words as [|word rest IH]; intros prev; [done|].
  simpl. case_bool_decide.
  - intros [-> | Hin]%elem_of_cons; [left | right; by eapply IH].
  - intros Hin. right. by eapply IH.
Qed.

Lemma every_word p w :
  every (fun c => p c || Char.isspace c) w = true -> no_space w = true ->
  every p w = true.
Proof.
  induction w as [|c w IH]; [done|]. simpl.
  intros [Hc Hw]%andb_true_iff [Hn Hw']%andb_true_iff.
  apply negb_true_iff in Hn. rewrite Hn, orb_false_r in Hc.
  by rewrite Hc, IH.
Qed.

(** The cleaned text is its words joined by single spaces. *)
Lemma clean_text_words text :
  ∃ words,
    _clean_text_enhanced text = Str.join " " words
    ∧ Str.split (_clean_text_enhanced text) = words
    ∧ has_repeat words = false
    ∧ Forall (fun w => is_word w = true
                       ∧ every permitted w = true
                       ∧ ((2 < String.length w)%nat
                          ∨ Str.lower w ∈ important_short_words)) words.
Proof.
  unfold _clean_text_enhanced.
  set (cleared := Re.sub_re false special_character " " _).
  set (words := filter _ (Str.split cleared)).
  assert (Forall (fun w => is_word w = true) (drop_repeats "" words)) as Hwords.
  { apply drop_repeats_words. apply Forall_forall. intros w Hw.
    apply list_elem_of_filter in Hw as [_ Hw].
    revert w Hw. apply Forall_forall, split_words. }
  exists (drop_repeats "" words). cbv zeta. rewrite strip_join by done.
  split; [done|]. split; [by apply split_join|]. split.
  - apply (has_repeat_tail ""), drop_repeats_no_repeat.
  - apply Forall_forall. intros w Hw.
    pose proof Hwords as Hword. rewrite Forall_forall in Hword.
    specialize (Hword w Hw). split; [done|].
    apply drop_repeats_subseteq in Hw.
    apply list_elem_of_filter in Hw as [Hkeep Hw]. split; [|done].
    apply every_word; [|by apply andb_true_iff in Hword as [_ ?]].
    assert (Forall (fun w => every (fun c => permitted c || Char.isspace c) w
                             = true) (Str.split cleared)) as Hall
      by (apply split_every, sub_special_chars; lia).
    rewrite Forall_forall in Hall. by apply Hall.
Qed.

End CleanWords.

(** X4.  Every word of a cleaned text is longer than two characters or
    is, up to case, one of the important short words, and is written with
    word characters and the punctuation that the cleaning keeps. *)
Theorem cleaned_words_are_kept_words :
  ∀ (text w : string),
    w ∈ Str.split (_clean_text_enhanced text) ->
    ((2 < String.length w)%nat ∨ Str.lower w ∈ important_short_words)
    ∧ every permitted w = true.
Proof.
  intros text w Hw.
  destruct (clean_text_words text) as (words & _ & Hsplit & _ & Hall).
  rewrite Hsplit in Hw. rewrite Forall_forall in Hall.
  destruct (Hall w Hw) as (_ & Hchars & Hkeep). done.
Qed.

Lemma cleaned_words_are_kept_words_witness :
  ((2 < String.length "Policy!!")%nat ∨ Str.lower "Policy!!" ∈ important_short_words)
  ∧ every permitted "Policy!!" = true.
Proof.
  apply (cleaned_words_are_kept_words
           "  Hello   hello WORLD a we We us @ cookie Policy!! the THE The end. aI x  "
           "Policy!!").
  vm_compute. repeat first [apply list_elem_of_here | apply list_elem_of_further].
Defined.

(** ** The result of a fetch *)

(** X5.  A fetch that succeeds has no error text, has the parsed document,
    and has as content a cleaned text; a fetch that fails has no content,
    no document and a non-empty error text.  Either way it makes at most
    two requests, which are added to the log. *)
Theorem fetch_result_is_consistent :
  ∀ (urlparse_scheme : string -> option string) (net : Net)
    (url : string) (log : list string),
    let result := _scrape_single_page urlparse_scheme net url log in
    (if success result.1
     then error result.1 = None
          ∧ is_Some (soup result.1)
          ∧ has_repeat (Str.split (content result.1)) = false
          ∧ has_space_run (content result.1) = false
     else content result.1 = ""
          ∧ soup result.1 = None
          ∧ ∃ msg, error result.1 = Some msg ∧ msg ≠ "")
    ∧ ∃ requests, result.2 = log ++ requests ∧ (length requests <= 2)%nat.
Proof.
  intros urlparse_scheme net url log.
  pose (ok := fun result : PageData * list string =>
    (if success result.1
     then error result.1 = None
          ∧ is_Some (soup result.1)
          ∧ has_repeat (Str.split (content result.1)) = false
          ∧ has_space_run (content result.1) = false
     else content result.1 = ""
          ∧ soup result.1 = None
          ∧ ∃ msg, error result.1 = Some msg ∧ msg ≠ "")
    ∧ ∃ requests, result.2 = log ++ requests ∧ (length requests <= 2)%nat).
  change (ok (_scrape_single_page urlparse_scheme net url log)).
  assert (∀ msg requests, (length requests <= 2)%nat -> msg ≠ "" ->
            ok (failed_page msg, log ++ requests)) as Hfailed.
  { intros msg requests Hlen Hmsg. split; [|by exists requests].
    simpl. repeat split. by exists msg. }
  assert (∀ e requests, (length requests <= 2)%nat ->
            ok (page_error e, log ++ requests)) as Hfail.
  { intros e requests Hlen. destruct e; simpl; by apply Hfailed. }
  assert (∀ (response : Exn + Response) requests, (length requests <= 2)%nat ->
    ok match response with
       | inl e => (page_error e, log ++ requests)
       | inr response =>
           if negb (Str.contains "text/html"
                      (Str.lower (default "" (content_type response))))
           then (failed_page "Not HTML content", log ++ requests)
           else
             match document response with
             | inl e => (page_error e, log ++ requests)
             | inr doc =>
                 ({| success := true;
                     content := _clean_text_enhanced
                                  (_extract_main_content_enhanced doc);
                     soup := Some doc; error := None |}, log ++ requests)
             end
       end) as Hfinish.
  { intros response requests Hlen.
    destruct response as [e|response]; [by apply Hfail|].
    destruct (negb _); [by apply Hfailed|].
    destruct (document response) as [e|doc]; [by apply Hfail|].
    split; [|by exists requests]. cbn [fst success error soup content].
    destruct (clean_text_words (_extract_main_content_enhanced doc))
      as (words & Hjoin & Hsplit & Hrep & Hall).
    split; [done|]. split; [by eexists|]. split; [by rewrite Hsplit|].
    rewrite Hjoin. apply no_space_run_join.
    eapply Forall_impl; [exact Hall|]. by intros w (? & _). }
  unfold _scrape_single_page.
  destruct (urlparse_scheme url) as [scheme|]; cbv zeta.
  2:{ rewrite <- (app_nil_r log) at 1. apply Hfail. simpl. lia. }
  set (u := force_https scheme url).
  unfold get at 1.
  destruct (match net log u with
            | Responds response =>
                if bool_decide (400 ≤ status_code response < 600)%Z
                then inl (HTTPError ("Error for url: " +:+ u))
                else inr response
            | Fails e => inl e
            end) as [e|response] eqn:Hfirst.
  - destruct (is_RequestException e).
    + unfold get. rewrite <- app_assoc. apply (Hfinish _ [u; u]). simpl. lia.
    + apply (Hfinish (inl e) [u]). simpl. lia.
  - apply (Hfinish (inr response) [u]). simpl. lia.
Qed.

(** ** Requests and content of one company *)

Section Requests.

Variable max_content_length : Z.
Variable urlparse_scheme : string -> option string.
Variable urljoin : string -> string -> option string.
Variable net : Net.

Lemma scrape_single_page_requests url log :
  ∃ requests,
    (_scrape_single_page urlparse_scheme net url log).2 = log ++ requests
    ∧ (length requests <= 2)%nat.
Proof.
  unfold _scrape_single_page, get.
  destruct (urlparse_scheme url) as [scheme|];
    [|exists []; split; [by rewrite app_nil_r | simpl; lia]].
  cbv zeta. set (u := force_https scheme url).
  repeat case_match; simplify_eq; cbn [snd].
  all: first [ exists [u]; split; [reflexivity | simpl; lia]
             | exists [u; u]; split; [by rewrite <- app_assoc | simpl; lia] ].
Qed.

Lemma get_strategic_pages_requests base_url log :
  (length (_get_strategic_pages urlparse_scheme urljoin net base_url log).1 <= 5)%nat
  ∧ ∃ requests,
      (_get_strategic_pages urlparse_scheme urljoin net base_url log).2
      = log ++ requests
      ∧ (length requests <= 2)%nat.
Proof.
  unfold _get_strategic_pages.
  destruct (scrape_single_page_requests base_url log) as (requests & Hlog & Hlen).
  destruct (_scrape_single_page urlparse_scheme net base_url log)
    as [homepage_data log'].
  simpl in Hlog. subst log'.
  destruct (negb (success homepage_data)); [simpl; split; [lia | by exists requests]|].
  destruct (soup homepage_data) as [doc|];
    [|simpl; split; [lia | by exists requests]].
  destruct (link_loop urljoin base_url (anchors doc) (∅, [base_url]))
    as [found pages].
  cbn [fst snd]. split; [rewrite length_take; lia | by exists requests].
Qed.

Lemma scrape_pages_requests pages all_content log :
  ∃ requests,
    (scrape_pages max_content_length urlparse_scheme net pages all_content log).2
    = log ++ requests
    ∧ (length requests <= 2 * length pages)%nat.
Proof.
  revert all_content log.
  induction pages as [|page_url rest IH]; intros all_content log.
  - exists []. split; [by rewrite app_nil_r | simpl; lia].
  - cbn [scrape_pages].
    destruct (scrape_single_page_requests page_url log) as (first & Hlog & Hlen).
    destruct (_scrape_single_page urlparse_scheme net page_url log)
      as [page_data log'].
    simpl in Hlog. subst log'.
    assert (∀ content,
      ∃ requests,
        (scrape_pages max_content_length urlparse_scheme net rest content
           (log ++ first)).2 = log ++ requests
        ∧ (length requests <= 2 * length (page_url :: rest))%nat) as Hrest.
    { intros content. destruct (IH content (log ++ first)) as (more & -> & Hmore).
      exists (first ++ more). rewrite app_assoc. split; [done|].
      rewrite length_app. simpl. lia. }
    destruct (success page_data); [|apply Hrest].
    case_bool_decide; [|apply Hrest].
    exists first. split; [done | simpl; lia].
Qed.


End Requests.

(** X6.  The pipeline of one company adds at most twelve requests to the
    log, whatever the record and the network: at most two for the homepage
    when the pages are selected, and at most two for each of at most five
    pages. *)
Theorem company_makes_at_most_twelve_requests :
  ∀ (max_content_length : Z) (urlparse_scheme : string -> option string)
    (urljoin : string -> string -> option string) (net : Net)
    (company : Company) (log : list string),
    ∃ requests,
      (scrape_company_website max_content_length urlparse_scheme urljoin net
         company log).2 = log ++ requests
      ∧ (length requests <= 12)%nat.
Proof.
  intros max_content_length urlparse_scheme urljoin net company log.
  unfold scrape_company_website.
  destruct (company !! "name");
    [|exists []; split; [by rewrite app_nil_r | simpl; lia]].
  destruct (company !! "website") as [website|];
    [|exists []; split; [by rewrite app_nil_r | simpl; lia]].
  assert (∃ requests,
    (match website with
     | VStr url =>
         let '(pages_to_scrape, log0) :=
           _get_strategic_pages urlparse_scheme urljoin net url log in
         scrape_pages max_content_length urlparse_scheme net pages_to_scrape
           "" log0
     | _ => ("", log)
     end).2 = log ++ requests ∧ (length requests <= 12)%nat) as Hlog.
  { destruct website;
      try (exists []; split; [by rewrite app_nil_r | simpl; lia]).
    destruct (get_strategic_pages_requests urlparse_scheme urljoin net s log)
      as (Hpages & first & Hfirst & Hlen).
    destruct (_get_strategic_pages urlparse_scheme urljoin net s log)
      as [pages log0].
    simpl in Hpages, Hfirst. subst log0.
    destruct (scrape_pages_requests max_content_length urlparse_scheme net
                pages "" (log ++ first)) as (more & -> & Hmore).
    exists (first ++ more). rewrite app_assoc. split; [done|].
    rewrite length_app. lia. }
  destruct (match website with VStr _ => _ | _ => _ end) as [all_content log'].
  destruct Hlog as (requests & Hlog & Hlen). simpl in Hlog. subst log'.
  exists requests. by destruct (negb (Str.is_empty all_content)).
Qed.


Example content_beyond_the_budget :
  (scrape_pages 10 https_scheme sample_site
     ["https://techflow.example.com"; "https://techflow.example.com/About"]
     "" ["a"; "b"; "c"]).1
  = gathered_from ""
      [("https://techflow.example.com",
        "We are expanding our engineering team. Urgent need for new servers! TechFlow Solutions")].
Proof. by vm_compute. Qed.

(** ** The pages that are selected *)

Section SelectedPages.

Variable urljoin : string -> string -> option string.
Variable base_url : string.

Lemma keyword_loop_distinct link keywords st :
  pages_distinct base_url st ->
  pages_distinct base_url
    (ctl_state (keyword_loop urljoin base_url link keywords st)).
Proof.
  intros Hst. induction keywords as [|keyword rest IH]; [done|].
  simpl. destruct (_ && bool_decide (size st.1 < 4)%nat); [|done].
  destruct (urljoin base_url link.1) as [full_url|]; [|done].
  destruct (bool_decide (full_url ∉ st.1) && _) eqn:Hnew; [|done].
  apply andb_true_iff in Hnew as [Hnew Hbase].
  apply bool_decide_eq_true in Hnew, Hbase.
  destruct Hst as [Hnodup Hin]. split; simpl.
  - apply NoDup_app. split; [done|]. split; [|apply NoDup_singleton].
    intros x Hx ->%list_elem_of_singleton.
    destruct (Hin _ Hx); [done | done].
  - intros x [Hx | ->%list_elem_of_singleton]%elem_of_app.
    + destruct (Hin _ Hx); [by left | right; set_solver].
    + right. set_solver.
Qed.

Lemma keyword_loop_from (R : string -> Prop) link keywords st :
  (∀ keyword p, keyword ∈ keywords ->
     Str.contains keyword (Str.lower link.1)
     || Str.contains keyword (Str.strip (Str.lower link.2)) = true ->
     urljoin base_url link.1 = Some p -> R p) ->
  Forall R st.2 ->
  Forall R (ctl_state (keyword_loop urljoin base_url link keywords st)).2.
Proof.
  intros Hadd Hst. induction keywords as [|keyword rest IH]; [done|].
  assert (Forall R (ctl_state (keyword_loop urljoin base_url link rest st)).2)
    as Hrest by (apply IH; intros k p Hk; apply (Hadd k p); by right).
  simpl. destruct (_ && bool_decide (size st.1 < 4)%nat) eqn:Hcond; [|done].
  apply andb_true_iff in Hcond as [Hcond _].
  destruct (urljoin base_url link.1) as [full_url|] eqn:Hjoin; [|done].
  destruct (bool_decide (full_url ∉ st.1) && _); [|done].
  simpl. apply Forall_app. split; [done|]. apply Forall_singleton.
  eapply Hadd; [left | exact Hcond | done].
Qed.

Lemma category_loop_distinct link categories st :
  pages_distinct base_url st ->
  pages_distinct base_url
    (ctl_state (category_loop urljoin base_url link categories st)).
Proof.
  revert st. induction categories as [|[category keywords] rest IH];
    intros st Hst; [done|].
  simpl. pose proof (keyword_loop_distinct link keywords st Hst) as Hk.
  destruct (keyword_loop urljoin base_url link keywords st) as [st'|st'|st'];
    simpl in Hk; [| |exact Hk]; (case_bool_decide; [exact Hk | by apply IH]).
Qed.

Lemma category_loop_from (R : string -> Prop) link categories st :
  (∀ category keywords keyword p,
     (category, keywords) ∈ categories -> keyword ∈ keywords ->
     Str.contains keyword (Str.lower link.1)
     || Str.contains keyword (Str.strip (Str.lower link.2)) = true ->
     urljoin base_url link.1 = Some p -> R p) ->
  Forall R st.2 ->
  Forall R (ctl_state (category_loop urljoin base_url link categories st)).2.
Proof.
  revert st. induction categories as [|[category keywords] rest IH];
    intros st Hadd Hst; [done|].
  simpl.
  pose proof (keyword_loop_from R link keywords st) as Hk.
  specialize (Hk (fun keyword p Hkw => Hadd category keywords keyword p
                                         (list_elem_of_here _ _) Hkw) Hst).
  assert (∀ st', Forall R st'.2 ->
    Forall R (ctl_state (category_loop urljoin base_url link rest st')).2)
    as Hrest.
  { intros st' Hst'. apply IH; [|done].
    intros c ks k p Hc. apply (Hadd c ks k p). by right. }
  destruct (keyword_loop urljoin base_url link keywords st) as [st'|st'|st'];
    simpl in Hk; [| |exact Hk]; (case_bool_decide; [exact Hk | by apply Hrest]).
Qed.

Lemma link_loop_distinct links st :
  pages_distinct base_url st ->
  pages_distinct base_url (link_loop urljoin base_url links st).
Proof.
  revert st. induction links as [|link rest IH]; intros st Hst; [done|].
  cbn [link_loop].
  pose proof (category_loop_distinct link priority_pages st Hst) as Hk.
  destruct (category_loop urljoin base_url link priority_pages st)
    as [st'|st'|st']; simpl in Hk; [| |exact Hk];
    (case_bool_decide; [exact Hk | by apply IH]).
Qed.

Lemma link_loop_from (R : string -> Prop) links st :
  (∀ link p, link ∈ links -> priority_link link ->
     urljoin base_url link.1 = Some p -> R p) ->
  Forall R st.2 ->
  Forall R (link_loop urljoin base_url links st).2.
Proof.
  revert st. induction links as [|link rest IH]; intros st Hadd Hst; [done|].
  cbn [link_loop].
  pose proof (category_loop_from R link priority_pages st) as Hk.
  assert (Forall R
    (ctl_state (category_loop urljoin base_url link priority_pages st)).2)
    as Hk'.
  { apply Hk; [|done]. intros category keywords keyword p Hc Hkw Hcond Hjoin.
    apply (Hadd link); [left | | done].
    by exists category, keywords, keyword. }
  clear Hk.
  assert (∀ st', Forall R st'.2 ->
    Forall R (link_loop urljoin base_url rest st').2) as Hrest.
  { intros st' Hst'. apply IH; [|done]. intros l p Hl. apply (Hadd l p). by right. }
  destruct (category_loop urljoin base_url link priority_pages st)
    as [st'|st'|st']; simpl in Hk'; [| |exact Hk'];
    (case_bool_decide; [exact Hk' | by apply Hrest]).
Qed.

End SelectedPages.

(** X8.  The selected pages are distinct, and each page after the base
    URL is the join of the base URL with the [href] of a link of the
    homepage that names a priority page. *)
Theorem strategic_pages_are_distinct_priority_links :
  ∀ (urlparse_scheme : string -> option string)
    (urljoin : string -> string -> option string) (net : Net)
    (base_url : string) (log : list string),
    let homepage := (_scrape_single_page urlparse_scheme net base_url log).1 in
    let pages :=
      (_get_strategic_pages urlparse_scheme urljoin net base_url log).1 in
    NoDup pages
    ∧ ∀ page, page ∈ pages ->
        page = base_url
        ∨ ∃ doc link,
            soup homepage = Some doc
            ∧ link ∈ anchors doc
            ∧ priority_link link
            ∧ urljoin base_url link.1 = Some page.
Proof.
  intros urlparse_scheme urljoin net base_url log. cbv zeta.
  unfold _get_strategic_pages.
  destruct (_scrape_single_page urlparse_scheme net base_url log)
    as [homepage_data log'].
  cbn [fst].
  assert (NoDup [base_url]
          ∧ ∀ page, page ∈ [base_url] ->
              page = base_url
              ∨ ∃ doc link,
                  soup homepage_data = Some doc
                  ∧ link ∈ anchors doc
                  ∧ priority_link link
                  ∧ urljoin base_url link.1 = Some page) as Hbase.
  { split; [apply NoDup_singleton|].
    intros page ->%list_elem_of_singleton. by left. }
  destruct (negb (success homepage_data)); [exact Hbase|].
  destruct (soup homepage_data) as [doc|] eqn:Hsoup; [|exact Hbase].
  pose proof (link_loop_distinct urljoin base_url (anchors doc) (∅, [base_url]))
    as Hdistinct.
  pose proof (link_loop_from urljoin base_url
    (fun page => page = base_url
       ∨ ∃ doc0 link, Some doc = Some doc0 ∧ link ∈ anchors doc0
                      ∧ priority_link link
                      ∧ urljoin base_url link.1 = Some page)
    (anchors doc) (∅, [base_url])) as Hfrom.
  destruct (link_loop urljoin base_url (anchors doc) (∅, [base_url]))
    as [found pages].
  cbn [fst snd] in *. split.
  - eapply sublist_NoDup; [|apply sublist_take].
    apply Hdistinct. split; [apply NoDup_singleton|].
    intros x ->%list_elem_of_singleton. by left.
  - apply Forall_forall, Forall_take, Hfrom.
    + intros link p Hlink Hpriority Hjoin. right. by exists doc, link.
    + apply Forall_singleton. by left.
Qed.

(** ** The profile that the pipeline returns *)

Section Profile.

Local Arguments String.append : simpl nomatch.

Lemma str_take_length n s : (String.length (Str.take n s) <= n)%nat.
Proof.
  revert s. induction n as [|n IH]; intros s; [done|].
  destruct s as [|c s]; simpl; [lia|]. specialize (IH s). lia.
Qed.

Lemma analyse_profile (company : Company) i all_content :
  let scored :=
    add_context (add_signals (with_content i all_content) (Str.lower all_content))
      (Str.lower all_content) in
  analyse (<["hardware_intelligence" := VIntel i]> company) all_content
  = <["hardware_intelligence" := VIntel (with_score scored (readiness_score scored))]>
      company.
Proof.
  cbv zeta. unfold analyse. rewrite update_intelligence_insert.
  rewrite extract_hardware_intelligence_profile.
  unfold _calculate_hardware_readiness_score, get_intelligence.
  by rewrite lookup_insert_eq, update_intelligence_insert.
Qed.

End Profile.

(** X9.  For a record with a name and a website the profile that the
    pipeline returns is consistent: the stored score is the score computed
    again from the stored lists and lies between 0 and 100, the preview has
    at most 500 characters, and either the profile tells a success, without
    error text and with both context entries, or it tells a failure, with the
    error text, score 0 and an empty preview. *)
Theorem returned_profile_is_consistent :
  ∀ (max_content_length : Z) (urlparse_scheme : string -> option string)
    (urljoin : string -> string -> option string) (net : Net)
    (company : Company) (name website : value) (log : list string),
    company !! "name" = Some name ->
    company !! "website" = Some website ->
    ∃ profile,
      (scrape_company_website max_content_length urlparse_scheme urljoin net
         company log).1
      = inr (<["hardware_intelligence" := VIntel profile]> company)
      ∧ _calculate_hardware_readiness_score
          (<["hardware_intelligence" := VIntel profile]> company)
        = inr (hardware_readiness_score profile)
      ∧ (0 <= hardware_readiness_score profile <= 100)%Z
      ∧ (String.length (content_preview profile) <= 500)%nat
      ∧ (if scraping_success profile
         then scraping_error profile = None
              ∧ is_Some (business_context profile)
              ∧ is_Some (industry_context profile)
         else scraping_error profile = Some "No content extracted from any pages"
              ∧ hardware_readiness_score profile = 0%Z
              ∧ content_preview profile = "").
Proof.
  intros max_content_length urlparse_scheme urljoin net company name website log
    Hname Hwebsite.
  unfold scrape_company_website. rewrite Hname, Hwebsite.
  destruct (match website with VStr _ => _ | _ => _ end) as [all_content log'].
  destruct (negb (Str.is_empty all_content)); cbn [fst].
  - rewrite analyse_profile. cbv zeta.
    assert (∀ scored,
      scraping_success scored = true -> scraping_error scored = None ->
      is_Some (business_context scored) -> is_Some (industry_context scored) ->
      content_preview scored = Str.take 500 all_content ->
      ∃ profile,
        inr (<["hardware_intelligence" :=
                VIntel (with_score scored (readiness_score scored))]> company)
        = inr (A:=Exn) (<["hardware_intelligence" := VIntel profile]> company)
        ∧ _calculate_hardware_readiness_score
            (<["hardware_intelligence" := VIntel profile]> company)
          = inr (hardware_readiness_score profile)
        ∧ (0 <= hardware_readiness_score profile <= 100)%Z
        ∧ (String.length (content_preview profile) <= 500)%nat
        ∧ (if scraping_success profile
           then scraping_error profile = None
                ∧ is_Some (business_context profile)
                ∧ is_Some (industry_context profile)
           else scraping_error profile
                = Some "No content extracted from any pages"
                ∧ hardware_readiness_score profile = 0%Z
                ∧ content_preview profile = "")) as Hscored.
    { intros scored Hsuccess Herror Hbusiness Hindustry Hpreview.
      exists (with_score scored (readiness_score scored)).
      split; [reflexivity|].
      unfold _calculate_hardware_readiness_score, get_intelligence.
      rewrite lookup_insert_eq.
      cbn [hardware_readiness_score with_score content_preview scraping_success
           scraping_error business_context industry_context].
      split; [by destruct scored|].
      split; [rewrite readiness_score_weighted_sum; apply weighted_sum_range|].
      rewrite Hpreview, Hsuccess. split; [apply str_take_length | done]. }
    apply Hscored; first [reflexivity | by eexists].
  - rewrite insert_insert_eq.
    exists (blank_intelligence (Some "No content extracted from any pages")).
    split; [reflexivity|].
    unfold _calculate_hardware_readiness_score, get_intelligence.
    rewrite lookup_insert_eq. split; [reflexivity|].
    simpl. split; [lia|]. split; [lia | done].
Qed.

Lemma returned_profile_is_consistent_witness :
  ∃ profile,
    (scrape_company_website 4000 https_scheme concat_join sample_site
       sample_company []).1
    = inr (<["hardware_intelligence" := VIntel profile]> sample_company)
    ∧ _calculate_hardware_readiness_score
        (<["hardware_intelligence" := VIntel profile]> sample_company)
      = inr (hardware_readiness_score profile)
    ∧ (0 <= hardware_readiness_score profile <= 100)%Z
    ∧ (String.length (content_preview profile) <= 500)%nat
    ∧ (if scraping_success profile
       then scraping_error profile = None
            ∧ is_Some (business_context profile)
            ∧ is_Some (industry_context profile)
       else scraping_error profile = Some "No content extracted from any pages"
            ∧ hardware_readiness_score profile = 0%Z
            ∧ content_preview profile = "").
Proof.
  apply (returned_profile_is_consistent 4000 https_scheme concat_join sample_site
           sample_company (VStr "TechFlow Solutions")
           (VStr "https://techflow.example.com") []).
  - reflexivity.
  - reflexivity.
Defined.

(** ** The records of a batch *)

Section BatchResults.

Variable max_content_length : Z.
Variable urlparse_scheme : string -> option string.
Variable urljoin : string -> string -> option string.
Variable task_net : Z -> nat -> Net.
Variable overruns : Z -> nat -> bool.

Lemma collect_nameless max_workers companies company :
  company ∈ companies -> company !! "name" = None ->
  ∀ i done_so_far,
    collect max_content_length urlparse_scheme urljoin task_net overruns
      max_workers i companies done_so_far = inl (KeyError "name").
Proof.
  intros Hin Hnone.
  induction companies as [|first rest IH]; intros i done_so_far;
    [by apply elem_of_nil in Hin|].
  cbn [collect]. destruct (first !! "name") as [name|] eqn:Hname.
  - apply elem_of_cons in Hin as [-> | Hin]; [congruence|].
    destruct (future_result _ _ _ _ _ _ _ first); by apply IH.
  - unfold future_result, scrape_company_website. rewrite Hname.
    by destruct (overruns max_workers i).
Qed.


End BatchResults.

(** X10.  One record without a name makes the whole batch raise
    [KeyError]: its task raises at the first look-up, and the handler of
    the batch looks the name up again. *)
Theorem nameless_record_aborts_the_batch :
  ∀ (max_content_length : Z) (urlparse_scheme : string -> option string)
    (urljoin : string -> string -> option string)
    (task_net : Z -> nat -> Net) (overruns : Z -> nat -> bool)
    (companies : list Company) (company : Company) (max_workers : Z),
    (0 < max_workers)%Z ->
    company ∈ companies ->
    company !! "name" = None ->
    scrape_multiple_companies max_content_length urlparse_scheme urljoin
      task_net overruns companies max_workers = inl (KeyError "name").
Proof.
  intros max_content_length urlparse_scheme urljoin task_net overruns companies
    company max_workers Hworkers Hin Hnone.
  unfold scrape_multiple_companies. rewrite bool_decide_eq_false_2 by lia.
  by eapply collect_nameless.
Qed.

Lemma nameless_record_aborts_the_batch_witness :
  scrape_multiple_companies 4000 https_scheme concat_join sample_task_net
    second_overruns [sample_company; other_company; nameless_company] 2
  = inl (KeyError "name").
Proof.
  apply (nameless_record_aborts_the_batch 4000 https_scheme concat_join
           sample_task_net second_overruns
           [sample_company; other_company; nameless_company] nameless_company 2).
  - lia.
  - repeat first [apply list_elem_of_here | apply list_elem_of_further].
  - reflexivity.
Defined.



(** * Prospects and summaries *)

Section Sorting.

Context {A : Type} (key : A -> Z).

Lemma insert_desc_perm x l : insert_desc key x l ≡ₚ x :: l.
Proof.
  induction l as [|y l IH]; simpl; [done|].
  case_bool_decide; [|done].
  by rewrite IH, Permutation_swap.
Qed.

Lemma sort_desc_perm l : sort_desc key l ≡ₚ l.
Proof.
  induction l as [|x l IH]; simpl; [done|].
  by rewrite insert_desc_perm, IH.
Qed.

Lemma insert_desc_sorted x l :
  StronglySorted (falling key) l -> StronglySorted (falling key) (insert_desc key x l).
Proof.
  induction 1 as [|y l Hl IH Hy]; simpl.
  - repeat constructor.
  - case_bool_decide as Hlt.
    + constructor; [done|].
      rewrite insert_desc_perm. constructor; [unfold falling; lia | done].
    + constructor; [by constructor|].
      constructor; [unfold falling; lia|].
      eapply Forall_impl; [exact Hy|]. unfold falling. intros z Hz. lia.
Qed.

Lemma sort_desc_sorted l : StronglySorted (falling key) (sort_desc key l).
Proof.
  induction l as [|x l IH]; simpl; [constructor|].
  by apply insert_desc_sorted.
Qed.

Lemma insert_desc_stable z x l :
  filter (fun a => key a = z) (insert_desc key x l)
  = filter (fun a => key a = z) (x :: l).
Proof.
  induction l as [|y l IH]; simpl; [done|].
  case_bool_decide as Hlt; [|done].
  rewrite filter_cons, IH, !filter_cons.
  repeat case_decide; try done; lia.
Qed.

Lemma sort_desc_stable z l :
  filter (fun a => key a = z) (sort_desc key l) = filter (fun a => key a = z) l.
Proof.
  induction l as [|x l IH]; simpl; [done|].
  by rewrite insert_desc_stable, !filter_cons, IH.
Qed.

Lemma sorted_falling l i j a b :
  StronglySorted (falling key) l ->
  (i < j)%nat -> l !! i = Some a -> l !! j = Some b -> (key b <= key a)%Z.
Proof.
  intros Hl. revert i j. induction Hl as [|y l Hl IH Hy]; intros i j Hij Hi Hj.
  - by rewrite lookup_nil in Hi.
  - destruct j as [|j]; [lia|]. simpl in Hj.
    destruct i as [|i]; simpl in Hi.
    + simplify_eq. rewrite Forall_forall in Hy.
      apply (Hy b). by eapply list_elem_of_lookup_2.
    + apply (IH i j); [lia | done | done].
Qed.

End Sorting.

Section Prospects.

Lemma readable_score company :
  readable company -> stored_score company = inr (score_key company).
Proof.
  intros [profile Hp]. unfold score_key, stored_score. rewrite Hp.
  by destruct profile.
Qed.

Lemma stored_score_readable company score :
  stored_score company = inr score -> readable company.
Proof.
  unfold stored_score, readable. destruct (stored_profile company); [done|].
  by eexists.
Qed.

Lemma select_prospects_filter companies min_score :
  Forall readable companies ->
  select_prospects companies min_score
  = inr (filter (fun c => (min_score <= score_key c)%Z) companies).
Proof.
  induction 1 as [|company rest Hc _ IH]; simpl; [done|].
  rewrite (readable_score _ Hc), IH, filter_cons.
  case_bool_decide; case_decide; done.
Qed.

Lemma select_prospects_readable companies min_score prospects :
  select_prospects companies min_score = inr prospects ->
  Forall readable companies.
Proof.
  revert prospects. induction companies as [|company rest IH]; simpl;
    intros prospects H; [constructor|].
  destruct (stored_score company) as [|score] eqn:Hs; [done|].
  destruct (select_prospects rest min_score) as [|ps] eqn:Hr; [done|].
  constructor; [by eapply stored_score_readable | by eapply IH].
Qed.

Lemma stored_profiles_readable companies :
  Forall readable companies ->
  ∃ profiles, stored_profiles companies = inr profiles
    /\ length profiles = length companies.
Proof.
  induction 1 as [|company rest [profile Hc] _ (profiles & IH & Hlen)]; simpl.
  - by exists [].
  - rewrite Hc, IH. exists (profile :: profiles). simpl. by rewrite Hlen.
Qed.

Lemma stored_profiles_returns companies profiles :
  stored_profiles companies = inr profiles -> Forall readable companies.
Proof.
  revert profiles. induction companies as [|company rest IH]; simpl;
    intros profiles H; [constructor|].
  destruct (stored_profile company) as [|profile] eqn:Hs; [done|].
  destruct (stored_profiles rest) as [|ps] eqn:Hr; [done|].
  constructor; [by eexists | by eapply IH].
Qed.

End Prospects.

Section Mentions.

Lemma tally_snoc x l item :
  tally x (l ++ [item]) = (tally x l + if decide (item = x) then 1 else 0)%nat.
Proof.
  unfold tally. rewrite filter_app, length_app. f_equal.
  rewrite filter_cons, filter_nil. by case_decide.
Qed.

Lemma tally_absent x l : x ∉ l -> tally x l = 0%nat.
Proof.
  unfold tally. induction l as [|y l IH]; intros Hx; [done|].
  rewrite not_elem_of_cons in Hx. destruct Hx as [Hxy Hx].
  rewrite filter_cons. case_decide; [congruence | by apply IH].
Qed.

Lemma tally_mentions x items : tally x (map Str.lower items) = mentions x items.
Proof.
  unfold tally, mentions. induction items as [|item items IH]; [done|].
  cbn [map]. rewrite !filter_cons. case_decide; simpl; by rewrite IH.
Qed.

Lemma count_up_keys item counts :
  map fst (count_up item counts)
  = if decide (item ∈ map fst counts) then map fst counts
    else map fst counts ++ [item].
Proof.
  induction counts as [|[x n] counts IH]; simpl.
  - done.
  - case_bool_decide as Hx; simpl.
    + subst x. rewrite decide_True; [done | by left].
    + rewrite IH. case_decide as Hin.
      * rewrite decide_True; [done | by right].
      * rewrite decide_False; [done|].
        rewrite elem_of_cons. intros [->|]; done.
Qed.

Lemma count_up_elem item counts x n :
  NoDup (map fst counts) ->
  (x, n) ∈ count_up item counts ->
  if decide (x = item)
  then (n = 1%nat /\ item ∉ map fst counts)
       \/ ∃ m, n = S m /\ (item, m) ∈ counts
  else (x, n) ∈ counts.
Proof.
  induction counts as [|[y k] counts IH]; simpl; intros Hnd Hin.
  - apply list_elem_of_singleton in Hin. simplify_eq.
    rewrite decide_True by done. left. split; [done | apply not_elem_of_nil].
  - apply NoDup_cons in Hnd as [Hy Hnd].
    case_bool_decide as Hyi.
    + subst y. apply elem_of_cons in Hin as [Heq|Hin].
      * simplify_eq. rewrite decide_True by done. right. exists k.
        split; [done | by left].
      * assert (x <> item) as Hx.
        { intros ->. apply Hy. apply list_elem_of_fmap. by exists (item, n). }
        rewrite decide_False by done. by right.
    + apply elem_of_cons in Hin as [Heq|Hin].
      * simplify_eq. rewrite decide_False by done. by left.
      * specialize (IH Hnd Hin). case_decide as Hx.
        -- subst x. destruct IH as [[-> Habs]|(m & -> & Hm)].
           ++ left. split; [done|]. rewrite not_elem_of_cons. by split.
           ++ right. exists m. split; [done | by right].
        -- by right.
Qed.

Lemma count_up_counted done counts item :
  counted done counts -> counted (done ++ [item]) (count_up item counts).
Proof.
  intros (Hnd & Hval & Hkey). split; [|split].
  - rewrite count_up_keys. case_decide as Hin; [done|].
    apply NoDup_app. split; [done|]. split; [|apply NoDup_singleton].
    intros x Hx Hx'. apply list_elem_of_singleton in Hx'. by subst x.
  - intros x n Hin. apply count_up_elem in Hin; [|done].
    rewrite tally_snoc. case_decide as Hx.
    + subst x. rewrite decide_True by done.
      destruct Hin as [[-> Habs]|(m & -> & Hm)].
      * rewrite tally_absent; [done|]. intros Hd. by apply Habs, Hkey.
      * rewrite (Hval _ _ Hm). lia.
    + rewrite decide_False by done. rewrite (Hval _ _ Hin). lia.
  - intros x. rewrite count_up_keys. split.
    + intros Hx. apply elem_of_app in Hx as [Hx|Hx].
      * case_decide; [by apply Hkey | apply elem_of_app; left; by apply Hkey].
      * apply list_elem_of_singleton in Hx. subst x.
        case_decide; [done | apply elem_of_app; right; by left].
    + intros Hx. apply elem_of_app. case_decide as Hin.
      * left. by apply Hkey.
      * apply elem_of_app in Hx as [Hx|Hx]; [left; by apply Hkey | by right].
Qed.

Lemma counter_counted items : counted items (counter items).
Proof.
  unfold counter.
  assert (∀ l done counts, counted done counts ->
    counted (done ++ l) (foldl (fun counts item => count_up item counts) counts l))
    as H.
  { induction l as [|item l IH]; intros done counts Hc; simpl.
    - by rewrite app_nil_r.
    - rewrite (cons_middle item done l), app_assoc. apply IH.
      by apply count_up_counted. }
  apply (H items [] []). split; [constructor|].
  split; [intros x n Hin; by apply elem_of_nil in Hin | done].
Qed.

Lemma tally_present x l : x ∈ l -> (0 < tally x l)%nat.
Proof.
  unfold tally. induction 1 as [x l|x y l _ IH].
  - rewrite filter_cons, decide_True by done. simpl. lia.
  - rewrite filter_cons. case_decide; simpl; lia.
Qed.

End Mentions.

(** X12.  [get_top_prospects]: on records whose profile can be read, it
    returns the records whose stored score reaches the threshold, each as
    often as it occurs in the input, arranged by falling score; records of
    equal score keep the order of the input. *)
Theorem top_prospects_are_sorted_selection
    (companies : list Company) (min_score : Z) :
  Forall readable companies ->
  ∃ prospects,
    get_top_prospects companies min_score = inr prospects
    /\ prospects ≡ₚ filter (fun c => (min_score <= score_key c)%Z) companies
    /\ (∀ i j a b, (i < j)%nat -> prospects !! i = Some a ->
          prospects !! j = Some b -> (score_key b <= score_key a)%Z)
    /\ (∀ score,
          filter (fun c => score_key c = score) prospects
          = filter (fun c => score_key c = score)
              (filter (fun c => (min_score <= score_key c)%Z) companies)).
Proof.
  intros Hread. unfold get_top_prospects.
  rewrite (select_prospects_filter _ _ Hread).
  eexists. split; [reflexivity|]. split; [apply sort_desc_perm|]. split.
  - intros i j a b. apply sorted_falling, sort_desc_sorted.
  - intros score. apply sort_desc_stable.
Qed.

Lemma top_prospects_are_sorted_selection_witness :
  ∃ prospects,
    get_top_prospects sample_leads 40 = inr prospects
    /\ prospects ≡ₚ filter (fun c => (40 <= score_key c)%Z) sample_leads
    /\ (∀ i j a b, (i < j)%nat -> prospects !! i = Some a ->
          prospects !! j = Some b -> (score_key b <= score_key a)%Z)
    /\ (∀ score,
          filter (fun c => score_key c = score) prospects
          = filter (fun c => score_key c = score)
              (filter (fun c => (40 <= score_key c)%Z) sample_leads)).
Proof.
  apply (top_prospects_are_sorted_selection sample_leads 40).
  repeat constructor; by eexists.
Defined.

Example top_prospects_of_sample_leads :
  get_top_prospects sample_leads 40
  = inr [scored_company "Beta" 70; scored_company "Gamma" 70;
         scored_company "Delta" 45].
Proof. reflexivity. Qed.

(** X13.  One record that holds something other than a dictionary under
    'hardware_intelligence' ([None], a string, a number) makes the reports
    raise: [get_top_prospects], whatever the threshold, and
    [generate_prospect_summary]. *)
Theorem unreadable_profile_aborts_the_reports
    (companies : list Company) (company : Company) (v : value) (min_score : Z) :
  company ∈ companies ->
  company !! "hardware_intelligence" = Some v ->
  (∀ i, v <> VIntel i) ->
  (∃ e, get_top_prospects companies min_score = inl e)
  /\ (∃ e, generate_prospect_summary companies = inl e).
Proof.
  intros Hin Hv Hnot.
  assert (¬ Forall readable companies) as Hunread.
  { intros Hall. rewrite Forall_forall in Hall.
    destruct (Hall _ Hin) as [profile Hprofile].
    unfold stored_profile in Hprofile. rewrite Hv in Hprofile.
    destruct v as [| | |i]; try done. by apply (Hnot i). }
  split.
  - unfold get_top_prospects.
    destruct (select_prospects companies min_score) as [e|prospects] eqn:Hs;
      [by exists e|].
    exfalso. apply Hunread. by eapply select_prospects_readable.
  - unfold generate_prospect_summary.
    destruct (stored_profiles companies) as [e|profiles] eqn:Hs; [by exists e|].
    exfalso. apply Hunread. by eapply stored_profiles_returns.
Qed.

Lemma unreadable_profile_aborts_the_reports_witness :
  (∃ e, get_top_prospects (sample_leads ++ [unread_company]) 40 = inl e)
  /\ (∃ e, generate_prospect_summary (sample_leads ++ [unread_company]) = inl e).
Proof.
  apply (unreadable_profile_aborts_the_reports
           (sample_leads ++ [unread_company]) unread_company VNone 40).
  - apply elem_of_app. right. apply list_elem_of_here.
  - reflexivity.
  - intros i. discriminate.
Defined.

(** X14.  [_get_top_mentions]: the result has at most [top_n] entries, all
    different, each the lower-cased form of an item; it is in the order of
    falling numbers of mentions; an item it leaves out is mentioned no more
    often than any entry; and it leaves an item out only when it is full. *)
Theorem top_mentions_are_the_most_frequent (items : list string) (top_n : nat) :
  let top := _get_top_mentions items top_n in
  (length top <= top_n)%nat
  /\ NoDup top
  /\ (∀ x, x ∈ top -> ∃ item, item ∈ items /\ x = Str.lower item)
  /\ (∀ i j x y, (i < j)%nat -> top !! i = Some x -> top !! j = Some y ->
        (mentions y items <= mentions x items)%nat)
  /\ (∀ x item, x ∈ top -> item ∈ items -> Str.lower item ∉ top ->
        (mentions (Str.lower item) items <= mentions x items)%nat)
  /\ (length top = top_n \/ ∀ item, item ∈ items -> Str.lower item ∈ top).
Proof.
  intros top. subst top. unfold _get_top_mentions.
  destruct items as [|item0 items0] eqn:Hitems.
  { split; [simpl; lia|]. split; [constructor|].
    split; [intros x Hx; by apply elem_of_nil in Hx|].
    split; [intros i j x y _ Hx; by rewrite lookup_nil in Hx|].
    split; [intros x item Hx; by apply elem_of_nil in Hx|].
    right. intros item Hx. by apply elem_of_nil in Hx. }
  rewrite <- Hitems. clear Hitems item0 items0.
  set (key := fun p : string * nat => Z.of_nat p.2).
  set (counts := counter (map Str.lower items)).
  set (sorted := sort_desc key counts).
  destruct (counter_counted (map Str.lower items)) as (Hnd & Hval & Hkey).
  fold counts in Hnd, Hval, Hkey.
  assert (sorted ≡ₚ counts) as Hperm by apply sort_desc_perm.
  assert (StronglySorted (falling key) sorted) as Hsorted
    by apply sort_desc_sorted.
  assert (∀ x n, (x, n) ∈ sorted -> n = mentions x items) as Hval'.
  { intros x n Hin. rewrite Hperm in Hin. rewrite (Hval _ _ Hin).
    apply tally_mentions. }
  assert (NoDup (map fst sorted)) as Hnd'.
  { change (NoDup (fst <$> sorted)). by rewrite Hperm. }
  assert (∀ item, item ∈ items -> Str.lower item ∈ map fst sorted) as Hkey'.
  { intros item Hin. change (Str.lower item ∈ fst <$> sorted). rewrite Hperm.
    apply Hkey. apply list_elem_of_fmap. by exists item. }
  assert (∀ x, x ∈ map fst sorted -> ∃ item, item ∈ items /\ x = Str.lower item)
    as Hfrom.
  { intros x Hx. change (x ∈ fst <$> sorted) in Hx. rewrite Hperm in Hx.
    apply Hkey in Hx. apply list_elem_of_fmap in Hx as (item & -> & Hx).
    by exists item. }
  change (map fst (take top_n sorted)) with (fst <$> take top_n sorted).
  rewrite fmap_take. change (fst <$> sorted) with (map fst sorted).
  set (keys := map fst sorted) in *.
  assert (∀ i x, keys !! i = Some x ->
    sorted !! i = Some (x, mentions x items)) as Hlook.
  { intros i x Hi. apply list_lookup_fmap_Some in Hi as ([x' n] & -> & Hi).
    simpl. rewrite Hi. f_equal. f_equal. apply Hval'.
    by eapply list_elem_of_lookup_2. }
  assert (∀ i j x y, (i < j)%nat -> keys !! i = Some x -> keys !! j = Some y ->
    (mentions y items <= mentions x items)%nat) as Horder.
  { intros i j x y Hij Hi Hj. apply Hlook in Hi, Hj.
    pose proof (sorted_falling key sorted i j _ _ Hsorted Hij Hi Hj) as H.
    unfold key in H. simpl in H. lia. }
  split; [rewrite length_take; lia|].
  split; [by apply (sublist_NoDup _ keys), sublist_take|].
  split.
  { intros x Hx. apply Hfrom. eapply elem_of_sublist; [exact Hx|].
    apply sublist_take. }
  split.
  { intros i j x y Hij Hi Hj.
    apply lookup_take_Some in Hi as [Hi _]. apply lookup_take_Some in Hj as [Hj _].
    by eapply Horder. }
  split.
  { intros x item Hx Hitem Hout.
    apply elem_of_take in Hx as (i & Hi & Hlt).
    destruct (list_elem_of_lookup_1 _ _ (Hkey' _ Hitem)) as [j Hj].
    destruct (decide (j < top_n)%nat) as [Hjn|Hjn].
    - exfalso. apply Hout. apply elem_of_take. by exists j.
    - apply (Horder i j); [lia | done | done]. }
  destruct (decide (top_n <= length keys)%nat) as [Hle|Hgt].
  - left. by apply length_take_le.
  - right. intros item Hitem. rewrite take_ge by lia. by apply Hkey'.
Qed.

(** X15.  [generate_prospect_summary]: on records whose profile can be
    read, the summary counts every record in exactly one of the three
    classes of leads, the successful scrapes are no more than the records,
    and each list of top mentions has at most five entries. *)
Theorem summary_classes_partition_the_records (companies : list Company) :
  Forall readable companies ->
  ∃ summary,
    generate_prospect_summary companies = inr summary
    /\ total_companies summary = len companies
    /\ (high_potential_leads summary + medium_potential_leads summary
        + low_potential_leads summary = total_companies summary)%Z
    /\ (0 <= successful_scrapes summary <= total_companies summary)%Z
    /\ (0 <= high_potential_leads summary)%Z
    /\ (0 <= medium_potential_leads summary)%Z
    /\ (0 <= low_potential_leads summary)%Z
    /\ (length (top_infrastructure_needs summary) <= 5)%nat
    /\ (length (top_pain_points summary) <= 5)%nat
    /\ (length (top_hardware_opportunities summary) <= 5)%nat.
Proof.
  intros Hread. unfold generate_prospect_summary.
  destruct (stored_profiles_readable _ Hread) as (profiles & -> & Hlen).
  eexists. split; [reflexivity|]. cbn [total_companies successful_scrapes
    high_potential_leads medium_potential_leads low_potential_leads
    top_infrastructure_needs top_pain_points top_hardware_opportunities].
  assert (∀ A (p : A -> bool) (l : list A),
    (0 <= count_if p l <= len l)%Z) as Hcount.
  { intros A p l. unfold count_if, len. split; [lia|].
    apply inj_le. induction l as [|x l IH]; simpl; [lia|].
    destruct (p x); simpl; lia. }
  assert (∀ scores : list Z,
    (count_if (fun s => bool_decide (50 <= s)%Z) scores
     + count_if (fun s => bool_decide (20 <= s < 50)%Z) scores
     + count_if (fun s => bool_decide (s < 20)%Z) scores = len scores)%Z)
    as Hpart.
  { intros scores. unfold count_if, len.
    induction scores as [|s scores IH]; [done|]. cbn [List.filter].
    repeat case_bool_decide; cbn [length]; lia. }
  assert (∀ items, (length (_get_top_mentions items 5) <= 5)%nat) as Htop.
  { intros items. unfold _get_top_mentions. destruct items; [simpl; lia|].
    rewrite length_map, length_take. lia. }
  assert (len companies = len profiles) as Hlen'.
  { unfold len. by rewrite Hlen. }
  split; [done|]. split.
  { rewrite Hpart, Hlen'. unfold len. by rewrite length_map. }
  split; [rewrite Hlen'; apply Hcount|].
  split; [apply Hcount|]. split; [apply Hcount|]. split; [apply Hcount|].
  split; [apply Htop|]. split; apply Htop.
Qed.

Lemma summary_classes_partition_the_records_witness :
  ∃ summary,
    generate_prospect_summary sample_leads = inr summary
    /\ total_companies summary = len sample_leads
    /\ (high_potential_leads summary + medium_potential_leads summary
        + low_potential_leads summary = total_companies summary)%Z
    /\ (0 <= successful_scrapes summary <= total_companies summary)%Z
    /\ (0 <= high_potential_leads summary)%Z
    /\ (0 <= medium_potential_leads summary)%Z
    /\ (0 <= low_potential_leads summary)%Z
    /\ (length (top_infrastructure_needs summary) <= 5)%nat
    /\ (length (top_pain_points summary) <= 5)%nat
    /\ (length (top_hardware_opportunities summary) <= 5)%nat.
Proof.
  apply (summary_classes_partition_the_records sample_leads).
  repeat constructor; by eexists.
Defined.

Example top_mentions_sample :
  _get_top_mentions ["B"; "a"; "b"; "c"; "A"; "d"; "e"; "f"; "g"] 5
  = ["b"; "a"; "c"; "d"; "e"].
Proof. reflexivity. Qed.
